(** * Reference-protein normalisation pipeline

    A shallow embedding of the driver notebook
    [Models_refprot_normalization.ipynb] and of the helper functions it
    calls from [Fns_refprot_normalization], followed by the properties
    the written description of the pipeline states about them.

    Numbers are rationals ([Q]); a missing measurement (pandas [NaN]) is
    the absence of a cell; a non-finite statistic is [None]. *)

From Stdlib Require Import QArith Qminmax Lqa ZArith Lia Ascii String Sorted.
From stdpp Require Import base option list gmap strings.

Local Open Scope string_scope.
Local Open Scope list_scope.
Local Open Scope nat_scope.

(** ** Exceptions and results

    The exceptions a run can stop with: a column that does not exist,
    a cell that does not compile, a comparison left without rows, and
    a data file that [pd.read_csv] could not read. *)

Inductive exn :=
  | KeyError (col : string)
  | SyntaxError
  | EmptySubset (outcome biomarker : string)
  | ReadError.

Inductive result (A : Type) :=
  | Ok (a : A)
  | Raise (e : exn).
Arguments Ok {A} a.
Arguments Raise {A} e.

Definition rbind {A B} (m : result A) (k : A → result B) : result B :=
  match m with
  | Ok a => k a
  | Raise e => Raise e
  end.

Notation "'try' x <- m ; k" := (rbind m (fun x => k))
  (at level 60, x binder, m at next level, right associativity).

(** ** Data frames

    A frame is its ordered column names and its rows; a row carries its
    index label and the cells that are present. *)

Record Row := mkRow { label : Z; cells : gmap string Q }.

Record DataFrame := mkDF { columns : list string; rows : list Row }.

(** A series is a column taken out of a frame: one optional value per
    row, in row order. *)
Definition Series := list (option Q).

Definition cell (r : Row) (c : string) : option Q := cells r !! c.

(** [len(df)] *)
Definition len (df : DataFrame) : nat := length (rows df).

Definition index (df : DataFrame) : list Z := map label (rows df).

(** [range(len(df))], the index [reset_index] installs. *)
Definition RangeIndex (n : nat) : list Z := map Z.of_nat (seq 0 n).

(** [df[c]]: raises [KeyError] when [c] is not a column. *)
Definition getitem (df : DataFrame) (c : string) : result Series :=
  if decide (c ∈ columns df)
  then Ok (map (λ r, cell r c) (rows df))
  else Raise (KeyError c).

(** [s == v], elementwise; a missing value compares unequal. *)
Definition series_eq (s : Series) (v : Q) : list bool :=
  map (λ o, match o with Some q => Qeq_bool q v | None => false end) s.

(** [s.notnull()] *)
Definition notnull (s : Series) : list bool :=
  map (λ o, match o with Some _ => true | None => false end) s.

(** [df[mask]] for a boolean mask computed from [df] itself: keeps the
    rows whose mask entry is true, with their labels. *)
Fixpoint mask_rows (rs : list Row) (mask : list bool) : list Row :=
  match rs, mask with
  | r :: rs', b :: mask' =>
      if b then r :: mask_rows rs' mask' else mask_rows rs' mask'
  | _, _ => []
  end.

Definition getitem_mask (df : DataFrame) (mask : list bool) : DataFrame :=
  mkDF (columns df) (mask_rows (rows df) mask).

(** [df[[c1, ..., cn]]]: raises [KeyError] on the first name that is not
    a column; the result has exactly the listed columns. *)
Fixpoint first_missing (cols have : list string) : option string :=
  match cols with
  | [] => None
  | c :: cols' => if decide (c ∈ have) then first_missing cols' have else Some c
  end.

Definition restrict (cols : list string) (r : Row) : Row :=
  mkRow (label r) (filter (λ kv, kv.1 ∈ cols) (cells r)).

Definition getitem_cols (df : DataFrame) (cols : list string) : result DataFrame :=
  match first_missing cols (columns df) with
  | Some c => Raise (KeyError c)
  | None => Ok (mkDF cols (map (restrict cols) (rows df)))
  end.

(** [df.dropna()]: drops every row with a missing value in any column. *)
Definition complete (cols : list string) (r : Row) : bool :=
  forallb (λ c, bool_decide (is_Some (cell r c))) cols.

Definition dropna (df : DataFrame) : DataFrame :=
  mkDF (columns df) (List.filter (complete (columns df)) (rows df)).

(** [df.reset_index(drop=True)] *)
Definition relabel (i : nat) (r : Row) : Row := mkRow (Z.of_nat i) (cells r).

Definition reset_index (df : DataFrame) : DataFrame :=
  mkDF (columns df) (imap relabel (rows df)).

(** [df.copy()] *)
Definition copy (df : DataFrame) : DataFrame := df.

(** [df[c] = s] for a series [s] computed row by row from [df]: the
    column is appended when new and overwritten otherwise. *)
Definition set_cell (c : string) (f : Row → option Q) (r : Row) : Row :=
  mkRow (label r)
        (match f r with
         | Some v => <[c := v]> (cells r)
         | None => delete c (cells r)
         end).

Definition setitem (df : DataFrame) (c : string) (f : Row → option Q) : DataFrame :=
  mkDF (if decide (c ∈ columns df) then columns df else columns df ++ [c])
       (map (set_cell c f) (rows df)).

(** [pd.read_csv]: a file that can be read is a header and its
    records, and the frame gets the default index 0, 1, 2, ...  [Csv] is
    the parsed file; a file that cannot be read (no such file, an empty
    file, a parse error) has no [Csv], and the call raises: see
    [Notebook.run_file]. *)
Record Csv := mkCsv { header : list string; records : list (gmap string Q) }.

Definition read_record (cols : list string) (i : nat) (m : gmap string Q) : Row :=
  mkRow (Z.of_nat i) (filter (λ kv, kv.1 ∈ cols) m).

Definition read_csv (f : Csv) : DataFrame :=
  mkDF (header f) (imap (read_record (header f)) (records f)).

(** ** The list literals of the configuration cell

    The biomarker lists are Python list displays of string literals.
    The cell is compiled before any of its statements runs, so a
    malformed display is a [SyntaxError] of the whole cell.

    What is modelled is the part of Python's syntax the notebook uses:
    a display that starts at its opening bracket, holds single-quoted
    string literals without escape sequences, commas and white space,
    and ends at its closing bracket.  Backslashes, double or triple
    quotes, comments and any other expression are outside this part;
    for such a text the functions below need not give Python's answer,
    and the statements that depend on the answer say which texts they
    are about ([covered], [plain_name]). *)

Module PyList.

Inductive token := LBRACK | RBRACK | COMMA | STR (s : string).

Definition is_space (a : Ascii.ascii) : bool :=
  (Ascii.eqb a " " || Ascii.eqb a "010" || Ascii.eqb a "009" || Ascii.eqb a "013")%char.

Definition is_line_break (a : Ascii.ascii) : bool :=
  (Ascii.eqb a "010" || Ascii.eqb a "013")%char.

(** The tokenizer; [cur] holds the characters of the string literal
    being read, if any.  Inside brackets a line break is white space;
    inside a string literal it is an error (the literal is not
    terminated on its line). *)
Fixpoint lex (cur : option string) (src : string) : option (list token) :=
  match src with
  | EmptyString =>
      match cur with
      | None => Some []
      | Some _ => None
      end
  | String a rest =>
      match cur with
      | Some acc =>
          if Ascii.eqb a "'"%char
          then cons (STR acc) <$> lex None rest
          else if is_line_break a then None
          else lex (Some (acc ++ String a EmptyString)%string) rest
      | None =>
          if Ascii.eqb a "["%char then cons LBRACK <$> lex None rest
          else if Ascii.eqb a "]"%char then cons RBRACK <$> lex None rest
          else if Ascii.eqb a ","%char then cons COMMA <$> lex None rest
          else if Ascii.eqb a "'"%char then lex (Some EmptyString) rest
          else if is_space a then lex None rest
          else None
      end
  end.

(** The parser of [ "[" [item ("," item)* [","]] "]" ], where an item
    is one or more adjacent string literals. *)
Inductive pstate :=
  | Start
  | WantItem
  | InItem (cur : string)
  | Closed.

Fixpoint parse (st : pstate) (ts : list token) : option (list string) :=
  match st, ts with
  | Start, LBRACK :: ts' => parse WantItem ts'
  | WantItem, STR s :: ts' => parse (InItem s) ts'
  | WantItem, RBRACK :: ts' => parse Closed ts'
  | InItem cur, STR s :: ts' => parse (InItem (cur ++ s)) ts'
  | InItem cur, COMMA :: ts' => cons cur <$> parse WantItem ts'
  | InItem cur, RBRACK :: ts' => cons cur <$> parse Closed ts'
  | Closed, [] => Some []
  | _, _ => None
  end.

Definition list_display (src : string) : option (list string) :=
  ts ← lex None src; parse Start ts.

Definition is_quote (a : Ascii.ascii) : bool := Ascii.eqb a "'"%char.



(** The characters of a name that a single-quoted literal holds as
    they are: printable ASCII other than the quote and the backslash. *)
Definition plain_char (a : Ascii.ascii) : bool :=
  (32 <=? nat_of_ascii a) && (nat_of_ascii a <=? 126)
  && negb (is_quote a) && negb (Ascii.eqb a "092"%char).

Fixpoint plain_name (s : string) : bool :=
  match s with
  | EmptyString => true
  | String a rest => plain_char a && plain_name rest
  end.

End PyList.

(** ** Configuration

    The values a user of the notebook fills in: the outcome names, the
    two biomarker list displays (as source text), the reference
    proteins, the number of bootstrap iterations and the subsetting
    switch. *)

Record Config := mkConfig {
  tau_pet_braak_I_IV : string;
  tau_pet_braak_V_VI : string;
  amyloid_pet : string;
  csf_biomarkers_src : string;
  plasma_biomarkers_src : string;
  csf_refprot : string;
  plasma_refprot : string;
  n_iter : nat;
  subset : bool
}.

(** The notebook as it is in the repository. *)
Definition shipped : Config := {|
  tau_pet_braak_I_IV := "tnic_cho_com_I_IV";
  tau_pet_braak_V_VI := "tnic_cho_com_V_VI";
  amyloid_pet := "fnc_ber_com_composite";
  csf_biomarkers_src :=
"['CSF_ptau217_Lilly',
                  'CSF_ptau181_Lilly',,
                  'CSF_MTBRtau243_WashU',
                  'CSF_ptau205_WashU',
                  'CSF_Ab42_Elecsys',
                  'CSF_SNAP25_UGOT',
                  'CSF_Neurogranin_NTK'
                 ]";
  plasma_biomarkers_src :=
"['Plasma_ptau217_Lilly',
                     'Plasma_ptau181_Lilly',
                     'Plasma_ptau205_WashU',
                     'Plasma_eMTBRtau243_WashU',
                     'Plasma_Ab42_WashU']";
  csf_refprot := "CSF_Ab40_Elecsys";
  plasma_refprot := "Plasma_Ab40_WashU";
  n_iter := N.to_nat 10000;
  subset := false
|}.

(** ** Helper functions ([Fns_refprot_normalization])

    The notebook [Fns_refprot_normalization.ipynb], which the driver
    imports as [fns], is not among the source files; its three entry
    points [create_biomarker_ratios], [compare_biomarkers] and
    [get_pvalues] and what they are made of are modelled from the
    written description of the pipeline. *)

Module Fns.

(** *** Ratio construction *)

(** Modelled from the spec: the row-wise ratio computed by the missing
    [fns.create_biomarker_ratios]; missing when the reference value is
    missing or not positive, or when the biomarker is missing. *)
Definition ratio (num den : option Q) : option Q :=
  match den with
  | Some d =>
      if Qle_bool d 0 then None
      else match num with
           | Some n => Some (n / d)%Q
           | None => None
           end
  | None => None
  end.

Section Ratios.

(** The name given to the ratio column of a biomarker and a
    reference protein; the description does not fix it. *)
Variable ratio_name : string → string → string.

(** Modelled from the spec: the missing
    [fns.create_biomarker_ratios(df, biomarkers, refprot)], which adds
    one ratio column per biomarker and returns the table with the
    names of the added columns in order; a column that does not exist
    is a [KeyError]. *)
Fixpoint create_biomarker_ratios (df : DataFrame) (biomarkers : list string)
    (refprot : string) : result (DataFrame * list string) :=
  match biomarkers with
  | [] => Ok (df, [])
  | b :: bs =>
      try _ <- getitem df b;
      try _ <- getitem df refprot;
      let name := ratio_name b refprot in
      let df1 := setitem df name (λ r, ratio (cell r b) (cell r refprot)) in
      try out <- create_biomarker_ratios df1 bs refprot;
      Ok (out.1, name :: out.2)
  end.

End Ratios.

(** *** Ordinary least squares *)

(** Modelled from the spec: the sums, means and quotients of the
    least-squares fit inside the missing [fns.compare_biomarkers]. *)
Definition qsum (l : list Q) : Q := foldr Qplus 0%Q l.

(** Modelled from the spec: division inside the missing fit, with
    every non-finite quotient (NaN, infinity) identified with [None]. *)
Definition qdiv (a b : Q) : option Q :=
  if Qeq_bool b 0 then None else Some (a / b)%Q.

(** Modelled from the spec: the sample mean used by the missing fit. *)
Definition mean (l : list Q) : option Q :=
  qdiv (qsum l) (inject_Z (Z.of_nat (length l))).

(** Modelled from the spec: the square, for the sums of squares of the
    missing fit. *)
Definition sq (x : Q) : Q := (x * x)%Q.

(** Modelled from the spec: the sum of squared deviations from [m]
    (the total sum of squares of the missing fit when [m] is the mean). *)
Definition ss (m : Q) (l : list Q) : Q := qsum (map (λ x, sq (x - m)) l).

(** Modelled from the spec: the sum of products of deviations, the
    numerator of the slope of the missing fit. *)
Definition sp (mx my : Q) (xs ys : list Q) : Q :=
  qsum (zip_with (λ x y, (x - mx) * (y - my))%Q xs ys).

(** Modelled from the spec: the residual sum of squares of the line
    [a + b x] in the missing fit. *)
Definition ss_res (a b : Q) (xs ys : list Q) : Q :=
  qsum (zip_with (λ x y, sq (y - (a + b * x)))%Q xs ys).

(** Modelled from the spec: the coefficients and the R² the missing
    [fns.compare_biomarkers] records for a fit. *)
Record Model := mkModel { intercept : Q; slope : Q; rsquared : Q }.

(** Modelled from the spec: the univariate least-squares fit of [ys]
    on [xs] with an intercept inside the missing
    [fns.compare_biomarkers], and its R² by the sum-of-squares
    definition, [1 - SS_res / SS_tot].  The fit is [None] (NaN) when
    a quotient is not finite. *)
Definition ols (xs ys : list Q) : option Model :=
  mx ← mean xs;
  my ← mean ys;
  b ← qdiv (sp mx my xs ys) (ss mx xs);
  let a := (my - b * mx)%Q in
  u ← qdiv (ss_res a b xs ys) (ss my ys);
  Some (mkModel a b (1 - u)%Q).

(** Modelled from the spec: a fit of the missing
    [fns.compare_biomarkers] together with the row positions it was
    computed on. *)
Record Fit := mkFit { rows_used : list nat; model : option Model }.

(** Modelled from the spec: the R² of a fit of the missing function,
    [None] when it is not finite. *)
Definition r2 (f : Fit) : option Q := rsquared <$> model f.

(** Modelled from the spec: the rows at the positions [idx], in that
    order and with repetitions, as the missing bootstrap resamples. *)
Definition take_rows {A} (l : list A) (idx : list nat) : list A :=
  omap (λ i, l !! i) idx.

(** Modelled from the spec: the missing function's fit of the outcome
    [ys] on the predictor [xs] over the rows at the positions [idx]. *)
Definition fit_on (xs ys : list Q) (idx : list nat) : Fit :=
  mkFit idx (ols (take_rows xs idx) (take_rows ys idx)).

(** *** Resampling *)

(** Modelled from the spec: the random generator the missing
    bootstrap draws from, as the sequence of its raw draws and the
    position of the next one. *)
Record Rng := mkRng { draws : nat → nat; pos : nat }.

(** Modelled from the spec: the [i]-th row position of the next
    resample of [n] rows. *)
Definition draw_index (n : nat) (g : Rng) (i : nat) : nat :=
  draws g (pos g + i) `mod` n.

(** Modelled from the spec: the resample of the missing bootstrap, [n]
    row positions drawn with replacement from [0 .. n-1]. *)
Definition resample (n : nat) (g : Rng) : list nat * Rng :=
  (map (draw_index n g) (seq 0 n), mkRng (draws g) (pos g + n)).

(** Modelled from the spec: the bootstrap loop of the missing
    [fns.compare_biomarkers]; each iteration draws one resample and
    fits both variants on it. *)
Fixpoint bootstrap (n_iter : nat) (x_raw x_norm y : list Q) (g : Rng)
    : list (Fit * Fit) * Rng :=
  match n_iter with
  | O => ([], g)
  | S k =>
      let (idx, g1) := resample (length y) g in
      let it := (fit_on x_raw y idx, fit_on x_norm y idx) in
      let (rest, g2) := bootstrap k x_raw x_norm y g1 in
      (it :: rest, g2)
  end.

(** Modelled from the spec: the record the missing
    [fns.compare_biomarkers] returns for one biomarker. *)
Record Comparison := mkComparison {
  biomarker : string;
  normalized : string;
  n_obs : nat;
  fit_raw : Fit;
  fit_norm : Fit;
  boot : list (Fit * Fit)
}.

(** Modelled from the spec: the bootstrap R² sequence of the raw
    variant in a record of the missing function. *)
Definition boot_raw (c : Comparison) : list (option Q) := map (λ it, r2 it.1) (boot c).

(** Modelled from the spec: the bootstrap R² sequence of the
    normalized variant in a record of the missing function. *)
Definition boot_norm (c : Comparison) : list (option Q) := map (λ it, r2 it.2) (boot c).

(** Modelled from the spec: the values of a column the missing
    function fits on, the missing ones left out. *)
Definition values (df : DataFrame) (c : string) : list Q :=
  omap (λ r, cell r c) (rows df).

(** Modelled from the spec: the comparison of one biomarker with its
    ratio in the missing [fns.compare_biomarkers]; both variants use
    the rows where the biomarker, the ratio and the outcome are all
    present, and an empty subset is an error naming the outcome and
    the biomarker. *)
Definition compare_one (df : DataFrame) (outcome : string) (n_iter : nat)
    (b bn : string) (g : Rng) : result Comparison * Rng :=
  match getitem_cols df [b; bn; outcome] with
  | Raise e => (Raise e, g)
  | Ok sel =>
      let sub := reset_index (dropna sel) in
      if decide (len sub = 0) then (Raise (EmptySubset outcome b), g)
      else
        let x_raw := values sub b in
        let x_norm := values sub bn in
        let y := values sub outcome in
        let all := seq 0 (len sub) in
        let (bs, g1) := bootstrap n_iter x_raw x_norm y g in
        (Ok (mkComparison b bn (len sub)
               (fit_on x_raw y all) (fit_on x_norm y all) bs), g1)
  end.

(** Modelled from the spec: the loop of the missing
    [fns.compare_biomarkers] over the biomarkers and their ratios, one
    record per biomarker in list order; the first error stops it. *)
Fixpoint compare_pairs (df : DataFrame) (outcome : string) (n_iter : nat)
    (pairs : list (string * string)) (g : Rng) : result (list Comparison) * Rng :=
  match pairs with
  | [] => (Ok [], g)
  | (b, bn) :: rest =>
      match compare_one df outcome n_iter b bn g with
      | (Raise e, g1) => (Raise e, g1)
      | (Ok c, g1) =>
          match compare_pairs df outcome n_iter rest g1 with
          | (Raise e, g2) => (Raise e, g2)
          | (Ok cs, g2) => (Ok (c :: cs), g2)
          end
      end
  end.

(** Modelled from the spec: the missing [fns.compare_biomarkers(df,
    biomarkers, normalized, refprot, outcome, n_iter)]. *)
Definition compare_biomarkers (df : DataFrame) (biomarkers normalized : list string)
    (refprot outcome : string) (n_iter : nat) (g : Rng)
    : result (list Comparison) * Rng :=
  compare_pairs df outcome n_iter (zip biomarkers normalized) g.

(** *** Empirical p-values and the false-discovery-rate correction *)

(** Modelled from the spec: an iteration counts in the missing
    [fns.get_pvalues] when both of its R² values are finite. *)
Definition finite_pair (it : option Q * option Q) : option (Q * Q) :=
  match it with
  | (Some r, Some n) => Some (r, n)
  | _ => None
  end.

(** Modelled from the spec: the iterations left after the missing
    [fns.get_pvalues] excludes the non-finite ones. *)
Definition finite_pairs (raw norm : list (option Q)) : list (Q * Q) :=
  omap finite_pair (zip raw norm).

(** Modelled from the spec: the count in the missing
    [fns.get_pvalues] of the iterations with normalized R² ≤ raw R². *)
Definition count_le (l : list (Q * Q)) : nat :=
  length (List.filter (λ it, Qle_bool it.2 it.1) l).

(** Modelled from the spec: a count as a number, for the quotients of
    the missing [fns.get_pvalues]. *)
Definition of_nat (n : nat) : Q := inject_Z (Z.of_nat n).

(** Modelled from the spec: the one-sided empirical p-value of the
    missing [fns.get_pvalues], with the +1/+1 correction, over the
    finite iterations only. *)
Definition empirical_p (raw norm : list (option Q)) : Q :=
  let fp := finite_pairs raw norm in
  (of_nat (1 + count_le fp) / of_nat (length fp + 1))%Q.

(** Modelled from the spec: the steps of the Benjamini–Hochberg
    correction in the missing [fns.get_pvalues], as the step-up
    procedure is computed: sort, divide by rank/m, running minimum
    from the largest p-value down, cap at one, and put the values back
    in the original order.  First the insertion into a list sorted by
    p-value. *)
Fixpoint insert_by_p (x : Q * nat) (l : list (Q * nat)) : list (Q * nat) :=
  match l with
  | [] => [x]
  | y :: l' => if Qle_bool x.1 y.1 then x :: y :: l' else y :: insert_by_p x l'
  end.

(** Modelled from the spec: the sort by p-value of the missing
    correction. *)
Definition sort_by_p (l : list (Q * nat)) : list (Q * nat) :=
  foldr insert_by_p [] l.

(** Modelled from the spec: the p-values of the missing correction
    with their positions in the family. *)
Definition enumerate (ps : list Q) : list (Q * nat) := imap (λ i p, (p, i)) ps.

(** Modelled from the spec: the sorted p-values of the missing
    correction divided by rank/m, the ranks starting at [k]. *)
Fixpoint scale (m k : nat) (ps : list Q) : list Q :=
  match ps with
  | [] => []
  | p :: ps' => (p / (of_nat k / of_nat m))%Q :: scale m (S k) ps'
  end.

(** Modelled from the spec: the running minimum of the missing
    correction, from the right end of the list. *)
Fixpoint cummin_right (l : list Q) : list Q :=
  match l with
  | [] => []
  | v :: l' =>
      match cummin_right l' with
      | [] => [v]
      | w :: r => Qmin v w :: w :: r
      end
  end.

(** Modelled from the spec: the cap at one of the missing correction. *)
Definition cap (v : Q) : Q := if Qle_bool v 1 then v else 1%Q.

(** Modelled from the spec: the missing correction writing each value
    back at the position of its p-value. *)
Fixpoint scatter (l : list (nat * Q)) (base : list Q) : list Q :=
  match l with
  | [] => base
  | (i, a) :: l' => scatter l' (<[i := a]> base)
  end.

(** Modelled from the spec: the Benjamini–Hochberg adjusted p-values
    of one family in the missing [fns.get_pvalues]. *)
Definition fdr_bh (ps : list Q) : list Q :=
  let sorted := sort_by_p (enumerate ps) in
  let corrected := map cap (cummin_right (scale (length ps) 1 sorted.*1)) in
  scatter (zip sorted.*2 corrected) ps.

(** Modelled from the spec: a record of the missing
    [fns.get_pvalues]: the comparison, the effective number of
    iterations, the p-value and the adjusted p-value. *)
Record PRecord := mkPRecord {
  comparison : Comparison;
  n_eff : nat;
  pvalue : Q;
  pvalue_fdr : Q
}.

(** Modelled from the spec: the p-value the missing [fns.get_pvalues]
    gives a comparison. *)
Definition p_of (c : Comparison) : Q := empirical_p (boot_raw c) (boot_norm c).

(** Modelled from the spec: the effective number of iterations the
    missing [fns.get_pvalues] reports for a comparison. *)
Definition effective (c : Comparison) : nat :=
  length (finite_pairs (boot_raw c) (boot_norm c)).

(** Modelled from the spec: what the missing [fns.get_pvalues] does
    to one family (one outcome and one biomarker panel): the p-value
    of every biomarker, then the correction across the family. *)
Definition family_pvalues (fam : list Comparison) : list PRecord :=
  let adj := fdr_bh (map p_of fam) in
  zip_with (λ c a, mkPRecord c (effective c) (p_of c) a) fam adj.

(** Modelled from the spec: the missing [fns.get_pvalues(all_res,
    normalized, n_iter)]; each result set is one family, and the sets
    keep their order. *)
Definition get_pvalues (all_res : list (list Comparison))
    (normalized : list string) (n_iter : nat) : list (list PRecord) :=
  map family_pvalues all_res.

End Fns.

(** ** The driver notebook *)

Module Notebook.

Import Fns.

(** What a run does that can be observed: what it prints, the calls
    it makes into the helper functions, and the file it writes. *)
Inductive event :=
  | Printed (msg : string)
  | PrintedLen (msg : string) (n : nat)
  | CreateRatios (biomarkers : list string) (refprot : string)
  | Compare (df : DataFrame) (biomarkers : list string) (outcome : string)
  | Compared (biomarkers : list string) (outcome : string) (res : list Comparison)
  | GetPvalues (normalized : list string)
  | Dump (file : string) (obj : list (list PRecord)).

Record World := mkWorld { rng : Rng; log : list event }.

(** Cell code: it reads and advances the world and may raise. *)
Definition M (A : Type) : Type := World → result A * World.

Definition ret {A} (a : A) : M A := λ w, (Ok a, w).

Definition bind {A B} (m : M A) (k : A → M B) : M B :=
  λ w, match m w with
       | (Ok a, w') => k a w'
       | (Raise e, w') => (Raise e, w')
       end.

Notation "'do' x <- m ; k" := (bind m (fun x => k))
  (at level 10, x name, m at level 100, k at level 200).
Notation "'exec' m ; k" := (bind m (fun _ => k))
  (at level 10, m at level 100, k at level 200).

Definition lift {A} (r : result A) : M A := λ w, (r, w).

Definition emit (e : event) : M unit :=
  λ w, (Ok tt, mkWorld (rng w) (log w ++ [e])).

Definition random {A} (f : Rng → result A * Rng) : M A :=
  λ w, let (r, g) := f (rng w) in (r, mkWorld g (log w)).

Section Cells.

Variable ratio_name : string → string → string.
Variable cfg : Config.

(** Cell "Load data": read the file and keep the baseline visits. *)
Definition load (f : Csv) : M DataFrame :=
  let df := read_csv f in
  do visit <- lift (getitem df "Visit") ;
  ret (getitem_mask df (series_eq visit 0)).

(** [df[df[outcome].notnull()].reset_index(drop=True)] *)
Definition outcome_subset (df : DataFrame) (outcome : string) : result DataFrame :=
  try s <- getitem df outcome;
  Ok (reset_index (getitem_mask df (notnull s))).

(** The names the configuration cell leaves behind. *)
Record Env := mkEnv {
  csf_biomarkers : list string;
  plasma_biomarkers : list string;
  df : DataFrame;
  csf_biomarkers_normalized : list string;
  plasma_biomarkers_normalized : list string;
  df_tau_pet_braak_I_IV : DataFrame;
  df_tau_pet_braak_V_VI : DataFrame;
  df_amyloid_pet : DataFrame
}.

(** Cell "outcome variables, biomarkers, ratios, per-outcome
    frames".  The cell is compiled first: when a list display does
    not parse, none of its statements runs. *)
Definition configure (df0 : DataFrame) : M Env :=
  match PyList.list_display (csf_biomarkers_src cfg),
        PyList.list_display (plasma_biomarkers_src cfg) with
  | Some csf, Some plasma =>
      exec emit (CreateRatios csf (csf_refprot cfg)) ;
      do r1 <- lift (create_biomarker_ratios ratio_name df0 csf (csf_refprot cfg)) ;
      exec emit (CreateRatios plasma (plasma_refprot cfg)) ;
      do r2 <- lift (create_biomarker_ratios ratio_name r1.1 plasma (plasma_refprot cfg)) ;
      do d1 <- lift (outcome_subset r2.1 (tau_pet_braak_I_IV cfg)) ;
      do d2 <- lift (outcome_subset r2.1 (tau_pet_braak_V_VI cfg)) ;
      do d3 <- lift (outcome_subset r2.1 (amyloid_pet cfg)) ;
      exec emit (PrintedLen "Length of df for tau PET braak I-IV: " (len d1)) ;
      exec emit (PrintedLen "Length of df for tau PET braak V-VI: " (len d2)) ;
      exec emit (PrintedLen "Length of df for amyloid PET: " (len d3)) ;
      ret (mkEnv csf plasma r2.1 r1.2 r2.2 d1 d2 d3)
  | _, _ => lift (Raise SyntaxError)
  end.

(** The frame one block of the model cell works on:
    [df[biomarkers+normalized+[refprot,outcome]].dropna().reset_index(drop=True)]
    when [subset] is set, a copy of the per-outcome frame otherwise. *)
Definition model_input (sub : bool) (df : DataFrame)
    (biomarkers normalized : list string) (refprot outcome : string)
    (df_outcome : DataFrame) : result DataFrame :=
  if sub then
    try sel <- getitem_cols df (biomarkers ++ normalized ++ [refprot; outcome]);
    Ok (reset_index (dropna sel))
  else Ok (copy df_outcome).

(** One block of the model cell. *)
Definition block (df : DataFrame) (biomarkers normalized : list string)
    (refprot outcome : string) (df_outcome : DataFrame) (msg : string)
    : M (list Comparison) :=
  do t <- lift (model_input (subset cfg) df biomarkers normalized refprot outcome df_outcome) ;
  exec emit (Compare t biomarkers outcome) ;
  do res <- random (compare_biomarkers t biomarkers normalized refprot outcome (n_iter cfg)) ;
  exec emit (Compared biomarkers outcome res) ;
  exec emit (Printed msg) ;
  ret res.

(** Cell "univariate linear regression models". *)
Definition models (e : Env)
    : M (list (list Comparison) * list (list Comparison)) :=
  let csf := block (df e) (csf_biomarkers e) (csf_biomarkers_normalized e) (csf_refprot cfg) in
  let plasma :=
    block (df e) (plasma_biomarkers e) (plasma_biomarkers_normalized e) (plasma_refprot cfg) in
  do c1 <- csf (tau_pet_braak_I_IV cfg) (df_tau_pet_braak_I_IV e)
          "Tau pet braak I-IV done for CSF" ;
  do c2 <- csf (tau_pet_braak_V_VI cfg) (df_tau_pet_braak_V_VI e)
          "Tau pet braak V-VI done for CSF" ;
  do c3 <- csf (amyloid_pet cfg) (df_amyloid_pet e)
          "Amyloid pet done for CSF" ;
  let all_res_csf := [c1; c2; c3] in
  do p1 <- plasma (tau_pet_braak_I_IV cfg) (df_tau_pet_braak_I_IV e)
          "Tau pet braak I-IV done for plasma" ;
  do p2 <- plasma (tau_pet_braak_V_VI cfg) (df_tau_pet_braak_V_VI e)
          "Tau pet braak V-VI done for plasma" ;
  do p3 <- plasma (amyloid_pet cfg) (df_amyloid_pet e)
          "Amyloid pet done for plasma" ;
  let all_res_plasma := [p1; p2; p3] in
  ret (all_res_csf, all_res_plasma).

(** Cell "P-values, FDR correction, pickle file". *)
Definition save (e : Env) (res : list (list Comparison) * list (list Comparison))
    : M unit :=
  exec emit (GetPvalues (csf_biomarkers_normalized e)) ;
  let all_res_csf := get_pvalues res.1 (csf_biomarkers_normalized e) (n_iter cfg) in
  exec emit (GetPvalues (plasma_biomarkers_normalized e)) ;
  let all_res_plasma := get_pvalues res.2 (plasma_biomarkers_normalized e) (n_iter cfg) in
  let results_all_lin := all_res_csf ++ all_res_plasma in
  emit (Dump "linreg_results.pkl" results_all_lin).

(** Running the cells top to bottom; the first cell that raises
    stops the run. *)
Inductive cell_id := LoadCell | ConfigureCell | ModelsCell | SaveCell.

Inductive outcome :=
  | Completed (w : World)
  | Failed (c : cell_id) (e : exn) (w : World).

Definition world_of (o : outcome) : World :=
  match o with
  | Completed w => w
  | Failed _ _ w => w
  end.

Definition run (f : Csv) (g : Rng) : outcome :=
  match load f (mkWorld g []) with
  | (Raise x, w) => Failed LoadCell x w
  | (Ok df0, w) =>
      match configure df0 w with
      | (Raise x, w) => Failed ConfigureCell x w
      | (Ok e, w) =>
          match models e w with
          | (Raise x, w) => Failed ModelsCell x w
          | (Ok res, w) =>
              match save e res w with
              | (Raise x, w) => Failed SaveCell x w
              | (Ok _, w) => Completed w
              end
          end
      end
  end.

(** A run from the file on disk.  The first statement of the loading
    cell is [pd.read_csv(path)], which gives the parsed file or raises
    (no such file, an empty file, a parse error); the file system is
    not modelled, so what the call did is the input [read], and an
    error of the call stops the run in the loading cell before
    anything else has happened. *)
Definition run_file (read : result Csv) (g : Rng) : outcome :=
  match read with
  | Ok f => run f g
  | Raise x => Failed LoadCell x (mkWorld g [])
  end.

End Cells.

End Notebook.

(** * Properties *)

(** ** Data frames *)

Section FrameFacts.

Implicit Types (df : DataFrame) (r : Row) (c : string).

Lemma mask_rows_map (f : Row → bool) (rs : list Row) :
  mask_rows rs (map f rs) = List.filter f rs.
Proof.
  induction rs as [|r rs IH]; simpl; [done|].
  by destruct (f r); rewrite IH.
Qed.

Lemma notnull_mask df c :
  mask_rows (rows df) (notnull (map (λ r, cell r c) (rows df)))
  = List.filter (λ r, bool_decide (is_Some (cell r c))) (rows df).
Proof.
  unfold notnull. rewrite map_map, mask_rows_map.
  apply filter_ext. intros r. by destruct (cell r c).
Qed.

Lemma filter_length_mono {A} (p q : A → bool) (l : list A) :
  (∀ x, p x = true → q x = true) →
  length (List.filter p l) ≤ length (List.filter q l).
Proof.
  intros Hpq. induction l as [|x l IH]; simpl; [done|].
  destruct (p x) eqn:Hp.
  - rewrite (Hpq _ Hp). simpl. lia.
  - destruct (q x); simpl; lia.
Qed.

Lemma filter_map_length {A B} (f : A → B) (p : B → bool) (l : list A) :
  length (List.filter p (map f l)) = length (List.filter (p ∘ f) l).
Proof.
  induction l as [|x l IH]; simpl; [done|].
  destruct (p (f x)); simpl; by rewrite IH.
Qed.

Lemma cell_restrict cols r c :
  cell (restrict cols r) c = if decide (c ∈ cols) then cell r c else None.
Proof.
  unfold cell, restrict. simpl.
  destruct (decide (c ∈ cols)) as [Hin|Hout].
  - destruct (cells r !! c) as [v|] eqn:Hc.
    + by apply map_lookup_filter_Some.
    + apply map_lookup_filter_None. left. done.
  - apply map_lookup_filter_None. right. intros v _. done.
Qed.

Lemma complete_elem cols r c :
  complete cols r = true → c ∈ cols → is_Some (cell r c).
Proof.
  unfold complete. rewrite forallb_forall. intros H Hc.
  apply list_elem_of_In in Hc. apply H in Hc.
  by apply bool_decide_eq_true in Hc.
Qed.

Lemma imap_labels {A} (g : nat → A → Row) (l : list A) :
  (∀ i x, label (g i x) = Z.of_nat i) →
  map label (imap g l) = RangeIndex (length l).
Proof.
  intros Hg. unfold RangeIndex. apply list_eq. intros i.
  change (map label (imap g l)) with (label <$> imap g l).
  change (map Z.of_nat (seq 0 (length l))) with (Z.of_nat <$> seq 0 (length l)).
  rewrite !list_lookup_fmap, list_lookup_imap.
  destruct (l !! i) as [x|] eqn:Hl; simpl.
  - rewrite lookup_seq_lt by (by eapply lookup_lt_Some). simpl. by rewrite Hg.
  - rewrite lookup_seq_ge by (by apply lookup_ge_None). done.
Qed.

Lemma len_reset_index df : len (reset_index df) = len df.
Proof. unfold len, reset_index. simpl. apply length_imap. Qed.

(** After [reset_index] the index is [0, 1, ..., len - 1]. *)
Lemma index_reset_index df :
  index (reset_index df) = RangeIndex (len (reset_index df)).
Proof.
  rewrite len_reset_index. unfold index, reset_index, len. simpl.
  by apply imap_labels.
Qed.

Lemma getitem_Ok df c s :
  getitem df c = Ok s → c ∈ columns df ∧ s = map (λ r, cell r c) (rows df).
Proof.
  unfold getitem. destruct (decide (c ∈ columns df)); [|discriminate].
  intros [= <-]. done.
Qed.

Lemma getitem_elem df c :
  c ∈ columns df → getitem df c = Ok (map (λ r, cell r c) (rows df)).
Proof. intros H. unfold getitem. by rewrite decide_True. Qed.

Lemma first_missing_None cols have :
  first_missing cols have = None ↔ ∀ c, c ∈ cols → c ∈ have.
Proof.
  induction cols as [|c cols IH]; simpl.
  - split; [|done]. intros _ c Hc. by apply elem_of_nil in Hc.
  - destruct (decide (c ∈ have)) as [Hin|Hout].
    + rewrite IH. split.
      * intros H c' [->|Hc']%elem_of_cons; auto.
      * intros H c' Hc'. apply H. by right.
    + split; [discriminate|]. intros H. destruct Hout. apply H. by left.
Qed.

Lemma getitem_cols_Ok df cols t :
  getitem_cols df cols = Ok t →
  (∀ c, c ∈ cols → c ∈ columns df) ∧ t = mkDF cols (map (restrict cols) (rows df)).
Proof.
  unfold getitem_cols. destruct (first_missing cols (columns df)) eqn:Hm; [discriminate|].
  intros [= <-]. split; [|done]. by apply first_missing_None.
Qed.

End FrameFacts.

(** ** Reasoning about cell code

    [spec P Φ m]: every event [m] adds to the log satisfies [P], whether
    [m] returns or raises, and a value it returns satisfies [Φ]. *)

Module Logic.

Import Notebook.

Definition spec {A} (P : event → Prop) (Φ : A → Prop) (m : M A) : Prop :=
  ∀ w r w', m w = (r, w') →
    (∃ evs, log w' = log w ++ evs ∧ Forall P evs) ∧ (∀ a, r = Ok a → Φ a).

Lemma spec_ret {A} P (Φ : A → Prop) a : Φ a → spec P Φ (ret a).
Proof.
  intros Ha w r w' [= <- <-]. split.
  - exists []. by rewrite app_nil_r.
  - by intros ? [= <-].
Qed.

Lemma spec_lift {A} P (Φ : A → Prop) (m : result A) :
  (∀ a, m = Ok a → Φ a) → spec P Φ (lift m).
Proof.
  intros Hm w r w' [= <- <-]. split; [|done].
  exists []. by rewrite app_nil_r.
Qed.

Lemma spec_emit P (Φ : unit → Prop) e : P e → Φ tt → spec P Φ (emit e).
Proof.
  intros He Ht w r w' [= <- <-]. split.
  - exists [e]. split; [done|]. by constructor.
  - by intros [] _.
Qed.

Lemma spec_random {A} P (Φ : A → Prop) (f : Fns.Rng → result A * Fns.Rng) :
  (∀ g a g', f g = (Ok a, g') → Φ a) → spec P Φ (random f).
Proof.
  intros Hf w r w'. unfold random. destruct (f (rng w)) as [r0 g'] eqn:Hr.
  intros [= <- <-]. split.
  - exists []. by rewrite app_nil_r.
  - intros a ->. by eapply Hf.
Qed.

Lemma spec_bind {A B} P (Φ : A → Prop) (Ψ : B → Prop) (m : M A) (k : A → M B) :
  spec P Φ m → (∀ a, Φ a → spec P Ψ (k a)) → spec P Ψ (bind m k).
Proof.
  intros Hm Hk w r w'. unfold bind.
  destruct (m w) as [[a|e] w1] eqn:Hmw.
  - intros Hka. destruct (Hm _ _ _ Hmw) as [(evs1 & Hl1 & HP1) Ha].
    destruct (Hk a (Ha a eq_refl) _ _ _ Hka) as [(evs2 & Hl2 & HP2) Hb].
    split; [|done]. exists (evs1 ++ evs2). split.
    + by rewrite Hl2, Hl1, app_assoc.
    + by apply Forall_app.
  - intros [= <- <-]. destruct (Hm _ _ _ Hmw) as [(evs1 & Hl1 & HP1) _].
    split; [|done]. by exists evs1.
Qed.

Lemma spec_log {A} P (Φ : A → Prop) (m : M A) g r w' :
  spec P Φ m → m (mkWorld g []) = (r, w') → Forall P (log w').
Proof.
  intros Hm Hr. destruct (Hm _ _ _ Hr) as [(evs & -> & HP) _]. done.
Qed.

(** A computation that returned went through each of its parts. *)
Lemma bind_Ok {A B} (m : M A) (k : A → M B) w b w' :
  bind m k w = (Ok b, w') →
  ∃ a w1, m w = (Ok a, w1) ∧ k a w1 = (Ok b, w').
Proof.
  unfold bind. destruct (m w) as [[a|e] w1]; [|discriminate]. eauto.
Qed.

Lemma lift_Ok {A} (m : result A) w a w' :
  lift m w = (Ok a, w') → m = Ok a ∧ w' = w.
Proof. by intros [= -> ->]. Qed.

Lemma emit_Ok e w u w' :
  emit e w = (Ok u, w') → w' = mkWorld (rng w) (log w ++ [e]).
Proof. by intros [= <-]. Qed.

Lemma random_Ok {A} (f : Fns.Rng → result A * Fns.Rng) w a w' :
  random f w = (Ok a, w') → ∃ g', f (rng w) = (Ok a, g') ∧ w' = mkWorld g' (log w).
Proof.
  unfold random. destruct (f (rng w)) as [r g'] eqn:Hf.
  intros [= -> <-]. eauto.
Qed.

End Logic.

(** ** Ratio construction *)

Section RatioFacts.

Import Fns.

Variable ratio_name : string → string → string.





(** What [create_biomarker_ratios] does to one row. *)
Fixpoint row_ratios (bs : list string) (refprot : string) (r : Row) : Row :=
match bs with
| [] => r
| b :: bs' =>
    row_ratios bs' refprot
      (set_cell (ratio_name b refprot) (λ r, ratio (cell r b) (cell r refprot)) r)
end.

Lemma create_biomarker_ratios_Ok df bs refprot out :
create_biomarker_ratios ratio_name df bs refprot = Ok out →
rows out.1 = map (row_ratios bs refprot) (rows df) ∧
out.2 = map (λ b, ratio_name b refprot) bs ∧
(∀ c, c ∈ columns out.1 ↔ c ∈ columns df ∨ c ∈ out.2).
Proof.
revert df out. induction bs as [|b bs IH]; intros df out; simpl.
- intros [= <-]. simpl. rewrite map_id. repeat split; auto.
  intros [?|H]; [done|]. by apply elem_of_nil in H.
- destruct (getitem df b); [|discriminate]. simpl.
  destruct (getitem df refprot); [|discriminate]. simpl.
  destruct (create_biomarker_ratios _ _ _ _) as [out'|] eqn:Hout; [|discriminate].
  simpl. intros [= <-]. simpl.
  apply IH in Hout as (Hrows & Hnames & Hcols). simpl in *.
  rewrite Hrows, map_map, Hnames. repeat split; try done.
  + rewrite Hcols, Hnames. intros [Hc|Hc].
    * destruct (decide (ratio_name b refprot ∈ columns df)); [by left|].
      apply elem_of_app in Hc as [?|Hc]; [by left|].
      apply list_elem_of_singleton in Hc as ->. right. by left.
    * right. by right.
  + rewrite Hcols, Hnames. intros [Hc|[->|Hc]%elem_of_cons].
    * left. destruct (decide (ratio_name b refprot ∈ columns df)); [done|].
      apply elem_of_app. by left.
    * left. destruct (decide (ratio_name b refprot ∈ columns df)); [done|].
      apply elem_of_app. right. by apply list_elem_of_singleton.
    * by right.
Qed.



Lemma cell_set_cell_ne c c' g r : c ≠ c' → cell (set_cell c g r) c' = cell r c'.
Proof.
intros Hne. unfold cell, set_cell. simpl.
destruct (g r); [by rewrite lookup_insert_ne|by rewrite lookup_delete_ne].
Qed.


Lemma cell_row_ratios_other bs refprot r c :
Forall (λ b, ratio_name b refprot ≠ c) bs →
cell (row_ratios bs refprot r) c = cell r c.
Proof.
revert r. induction bs as [|b bs IH]; intros r Hbs; simpl; [done|].
apply Forall_cons in Hbs as [Hb Hbs]. rewrite IH by done.
by apply cell_set_cell_ne.
Qed.







End RatioFacts.

(** ** The driver *)

Section DriverFacts.

Import Notebook Logic.

Variable ratio_name : string → string → string.
Variable cfg : Config.

Local Abbreviation block := (block cfg).
Local Abbreviation models := (models cfg).
Local Abbreviation configure := (configure ratio_name cfg).
Local Abbreviation save := (save cfg).
Local Abbreviation run := (run ratio_name cfg).

(** The cells in sequence, as one computation. *)
Definition pipeline (f : Csv) : M unit :=
  do df0 <- load f;
  do e <- configure df0;
  do res <- models e;
  save e res.

Lemma run_pipeline f g :
  world_of (run f g) = (pipeline f (mkWorld g [])).2.
Proof.
  unfold run, pipeline, bind.
  destruct (load f _) as [[df0|x] w1]; [|done].
  destruct (configure df0 w1) as [[e|x] w2]; [|done].
  destruct (models e w2) as [[res|x] w3]; [|done].
  destruct (save e res w3) as [[u|x] w4]; done.
Qed.

Lemma outcome_subset_index df o t :
  outcome_subset df o = Ok t → index t = RangeIndex (len t).
Proof.
  unfold outcome_subset. destruct (getitem df o); [|discriminate].
  intros [= <-]. apply index_reset_index.
Qed.

Lemma model_input_index sub df bms norm refprot o d t :
  index d = RangeIndex (len d) →
  model_input sub df bms norm refprot o d = Ok t →
  index t = RangeIndex (len t).
Proof.
  intros Hd. unfold model_input. destruct sub.
  - destruct (getitem_cols _ _); [|discriminate].
    intros [= <-]. apply index_reset_index.
  - by intros [= <-].
Qed.

Definition reindexed (ev : event) : Prop :=
  match ev with
  | Compare t _ _ => index t = RangeIndex (len t)
  | _ => True
  end.

Definition env_reindexed (e : Env) : Prop :=
  index (df_tau_pet_braak_I_IV e) = RangeIndex (len (df_tau_pet_braak_I_IV e)) ∧
  index (df_tau_pet_braak_V_VI e) = RangeIndex (len (df_tau_pet_braak_V_VI e)) ∧
  index (df_amyloid_pet e) = RangeIndex (len (df_amyloid_pet e)).

Lemma block_reindexed df bms norm refprot o d msg :
  index d = RangeIndex (len d) →
  spec reindexed (λ _, True) (block df bms norm refprot o d msg).
Proof.
  intros Hd. unfold Notebook.block.
  eapply spec_bind.
  { apply (spec_lift _ (λ t, index t = RangeIndex (len t))).
    intros t. by apply model_input_index. }
  intros t Ht. eapply spec_bind; [by apply (spec_emit _ (λ _, True))|]. intros _ _.
  eapply spec_bind; [by apply (spec_random _ (λ _, True))|]. intros res _.
  eapply spec_bind; [by apply (spec_emit _ (λ _, True))|]. intros _ _.
  eapply spec_bind; [by apply (spec_emit _ (λ _, True))|]. intros _ _.
  by apply spec_ret.
Qed.

Lemma models_reindexed e :
  env_reindexed e → spec reindexed (λ _, True) (models e).
Proof.
  intros (H1 & H2 & H3). unfold Notebook.models.
  repeat (eapply spec_bind; [by apply block_reindexed|]; intros ? _).
  by apply spec_ret.
Qed.

Lemma configure_reindexed df0 :
  spec reindexed env_reindexed (configure df0).
Proof.
  unfold Notebook.configure.
  destruct (PyList.list_display _) as [csf|]; [|by apply spec_lift].
  destruct (PyList.list_display _) as [plasma|]; [|by apply spec_lift].
  eapply spec_bind; [by apply (spec_emit _ (λ _, True))|]. intros _ _.
  eapply spec_bind; [by apply (spec_lift _ (λ _, True))|]. intros r1 _.
  eapply spec_bind; [by apply (spec_emit _ (λ _, True))|]. intros _ _.
  eapply spec_bind; [by apply (spec_lift _ (λ _, True))|]. intros r2 _.
  eapply spec_bind.
  { apply (spec_lift _ (λ t, index t = RangeIndex (len t))).
    intros t. apply outcome_subset_index. }
  intros d1 Hd1. eapply spec_bind.
  { apply (spec_lift _ (λ t, index t = RangeIndex (len t))).
    intros t. apply outcome_subset_index. }
  intros d2 Hd2. eapply spec_bind.
  { apply (spec_lift _ (λ t, index t = RangeIndex (len t))).
    intros t. apply outcome_subset_index. }
  intros d3 Hd3.
  do 3 (eapply spec_bind; [by apply (spec_emit _ (λ _, True))|]; intros _ _).
  by apply spec_ret.
Qed.

Lemma save_plain P e res :
  (∀ ev, match ev with Compare _ _ _ => False | _ => True end → P ev) →
  spec P (λ _, True) (save e res).
Proof.
  intros HP. unfold Notebook.save.
  eapply spec_bind; [by apply (spec_emit _ (λ _, True)); [apply HP|]|]. intros _ _.
  eapply spec_bind; [by apply (spec_emit _ (λ _, True)); [apply HP|]|]. intros _ _.
  by apply spec_emit; [apply HP|].
Qed.

Lemma load_Ok f w df0 w' :
load f w = (Ok df0, w') →
"Visit" ∈ header f ∧ w' = w ∧
df0 = getitem_mask (read_csv f)
        (series_eq (map (λ r, cell r "Visit") (rows (read_csv f))) 0).
Proof.
unfold load. intros (s & w1 & (Hs & ->)%lift_Ok & [= <- <-])%bind_Ok.
apply getitem_Ok in Hs as [Hin ->]. done.
Qed.

Lemma load_spec P f :
spec P (λ df0, ∃ w, load f w = (Ok df0, w)) (load f).
Proof.
intros w r w' Hl. split.
- exists []. rewrite app_nil_r. unfold load, bind, lift, ret in Hl.
  destruct (getitem _ _); by injection Hl as <- <-.
- intros df0 ->. exists w. pose proof (load_Ok _ _ _ _ Hl) as (_ & -> & _). done.
Qed.

Lemma pipeline_reindexed f : spec reindexed (λ _, True) (pipeline f).
Proof.
  unfold pipeline.
  eapply spec_bind; [apply load_spec|]. intros df0 _.
  eapply spec_bind; [apply configure_reindexed|]. intros e He.
  eapply spec_bind; [by apply models_reindexed|]. intros res _.
  apply save_plain. by intros [].
Qed.

(** C8. In both subsetting modes, every table handed to the model
    comparison has the index 0, 1, ..., len - 1: the index is reset
    right after the rows are filtered. *)
Theorem compare_tables_reindexed (f : Csv) (g : Fns.Rng) t bms o :
  Compare t bms o ∈ log (world_of (run f g)) →
  index t = RangeIndex (len t).
Proof.
  rewrite run_pipeline. intros Hin.
  destruct (pipeline f (mkWorld g [])) as [r w'] eqn:Hp.
  pose proof (spec_log _ _ _ _ _ _ (pipeline_reindexed f) Hp) as Hall.
  rewrite Forall_forall in Hall. by apply (Hall _ Hin).
Qed.

(** *** Sample sizes of the two subsetting modes *)

Lemma common_rows_le df cols o :
o ∈ cols →
length (List.filter (complete cols) (map (restrict cols) (rows df)))
≤ length (List.filter (λ r, bool_decide (is_Some (cell r o))) (rows df)).
Proof.
intros Ho. rewrite filter_map_length. apply filter_length_mono.
intros r Hr. simpl in Hr. apply bool_decide_eq_true.
apply (complete_elem _ _ o) in Hr; [|done].
by rewrite cell_restrict, decide_True in Hr.
Qed.

Lemma len_outcome_subset df o d :
outcome_subset df o = Ok d →
len d = length (List.filter (λ r, bool_decide (is_Some (cell r o))) (rows df)).
Proof.
unfold outcome_subset. destruct (getitem df o) as [s|] eqn:Hs; [|discriminate].
intros [= <-]. apply getitem_Ok in Hs as [_ ->].
by rewrite len_reset_index; unfold len, getitem_mask; simpl; rewrite notnull_mask.
Qed.

(** The per-outcome frames of an environment, by outcome name. *)
Definition outcomes (e : Env) : list (string * DataFrame) :=
[ (tau_pet_braak_I_IV cfg, df_tau_pet_braak_I_IV e);
  (tau_pet_braak_V_VI cfg, df_tau_pet_braak_V_VI e);
  (amyloid_pet cfg, df_amyloid_pet e) ].

Lemma configure_Ok df0 w e w' :
configure df0 w = (Ok e, w') →
∃ csf plasma r1 r2,
  PyList.list_display (csf_biomarkers_src cfg) = Some csf ∧
  PyList.list_display (plasma_biomarkers_src cfg) = Some plasma ∧
  Fns.create_biomarker_ratios ratio_name df0 csf (csf_refprot cfg) = Ok r1 ∧
  Fns.create_biomarker_ratios ratio_name r1.1 plasma (plasma_refprot cfg) = Ok r2 ∧
  outcome_subset r2.1 (tau_pet_braak_I_IV cfg) = Ok (df_tau_pet_braak_I_IV e) ∧
  outcome_subset r2.1 (tau_pet_braak_V_VI cfg) = Ok (df_tau_pet_braak_V_VI e) ∧
  outcome_subset r2.1 (amyloid_pet cfg) = Ok (df_amyloid_pet e) ∧
  csf_biomarkers e = csf ∧ plasma_biomarkers e = plasma ∧ df e = r2.1 ∧
  csf_biomarkers_normalized e = r1.2 ∧ plasma_biomarkers_normalized e = r2.2 ∧
  log w' = log w ++
    [ CreateRatios csf (csf_refprot cfg); CreateRatios plasma (plasma_refprot cfg);
      PrintedLen "Length of df for tau PET braak I-IV: " (len (df_tau_pet_braak_I_IV e));
      PrintedLen "Length of df for tau PET braak V-VI: " (len (df_tau_pet_braak_V_VI e));
      PrintedLen "Length of df for amyloid PET: " (len (df_amyloid_pet e)) ] ∧
  rng w' = rng w.
Proof.
unfold Notebook.configure.
destruct (PyList.list_display _) as [csf|]; [|discriminate].
destruct (PyList.list_display _) as [plasma|]; [|discriminate].
intros (? & ? & ->%emit_Ok & H)%bind_Ok.
apply bind_Ok in H as (r1 & ? & (Hr1 & ->)%lift_Ok & H).
apply bind_Ok in H as (? & ? & ->%emit_Ok & H).
apply bind_Ok in H as (r2 & ? & (Hr2 & ->)%lift_Ok & H).
apply bind_Ok in H as (d1 & ? & (Hd1 & ->)%lift_Ok & H).
apply bind_Ok in H as (d2 & ? & (Hd2 & ->)%lift_Ok & H).
apply bind_Ok in H as (d3 & ? & (Hd3 & ->)%lift_Ok & H).
apply bind_Ok in H as (? & ? & ->%emit_Ok & H).
apply bind_Ok in H as (? & ? & ->%emit_Ok & H).
apply bind_Ok in H as (? & ? & ->%emit_Ok & H).
injection H as <- <-. simpl.
exists csf, plasma, r1, r2. repeat split; try done.
by rewrite <- !app_assoc.
Qed.

(** C7. For every table, every outcome and every panel (any lists of
    biomarkers and ratios and any reference protein), the common subset
    (rows with every biomarker, every ratio, the reference protein and
    the outcome present) has at most as many rows as the frame of the
    maximize-availability mode (rows with the outcome present). *)
Theorem common_subset_le_max_availability df0 w e w' o d bms norm refprot t_common t_max :
configure df0 w = (Ok e, w') →
(o, d) ∈ outcomes e →
model_input true (df e) bms norm refprot o d = Ok t_common →
model_input false (df e) bms norm refprot o d = Ok t_max →
len t_common ≤ len t_max.
Proof.
intros He Ho Hc [= <-]. unfold copy.
apply configure_Ok in He
  as (csf & plasma & r1 & r2 & _ & _ & _ & _ & H1 & H2 & H3 & _ & _ & Hdf & _).
rewrite <- Hdf in H1, H2, H3.
assert (outcome_subset (df e) o = Ok d) as Hd.
{ unfold outcomes in Ho. rewrite !elem_of_cons in Ho.
  destruct Ho as [[= -> ->]|[[= -> ->]|[[= -> ->]|Ho]]]; try done.
  by apply elem_of_nil in Ho. }
rewrite (len_outcome_subset _ _ _ Hd).
unfold model_input in Hc.
destruct (getitem_cols _ _) as [sel|] eqn:Hsel; [|discriminate].
injection Hc as <-. rewrite len_reset_index.
apply getitem_cols_Ok in Hsel as [_ ->]. unfold len, dropna. simpl.
apply common_rows_le. rewrite !elem_of_app, !elem_of_cons. auto.
Qed.

(** *** Baseline visits *)

(** [df['Visit'] == 0], row by row. *)
Definition baseline_row (r : Row) : bool :=
match cell r "Visit" with
| Some q => Qeq_bool q 0
| None => false
end.

(** The row the two [create_biomarker_ratios] calls of the
    configuration cell make of a row of the loaded table: the ratios
    of the CSF panel are added first, then those of the plasma panel. *)
Definition with_ratios (csf plasma : list string) (r : Row) : Row :=
row_ratios ratio_name plasma (plasma_refprot cfg)
  (row_ratios ratio_name csf (csf_refprot cfg) r).

(** A row of a table with the columns [cols] comes from a baseline
    record of the file: some record of the file has [Visit] equal to
    0, and the row holds, in every column of the table, the value that
    record has there once the ratios of the two panels [csf] and
    [plasma] are added, and holds nothing else. *)
Definition from_baseline (f : Csv) (csf plasma cols : list string) (r : Row) : Prop :=
∃ i rec q,
  records f !! i = Some rec ∧ rec !! "Visit" = Some q ∧ (q == 0)%Q ∧
  ∀ c, cell r c = if decide (c ∈ cols)
                  then cell (with_ratios csf plasma (read_record (header f) i rec)) c
                  else None.

Definition baseline_frame (f : Csv) (csf plasma : list string) (t : DataFrame) : Prop :=
Forall (from_baseline f csf plasma (columns t)) (rows t).

Lemma Forall_mask_rows (P : Row → Prop) rs mask :
Forall P rs → Forall P (mask_rows rs mask).
Proof.
intros H. revert mask. induction H as [|r rs Hr _ IH]; intros [|[] mask]; simpl; auto.
Qed.

Lemma Forall_List_filter {A} (P : A → Prop) (p : A → bool) l :
Forall P l → Forall P (List.filter p l).
Proof.
induction 1 as [|x l Hx _ IH]; simpl; [done|]. destruct (p x); auto.
Qed.

Lemma Forall_relabel (P : Row → Prop) rs :
(∀ i r, P r → P (relabel i r)) → Forall P rs → Forall P (imap relabel rs).
Proof.
intros HP H. apply Forall_lookup. intros i r Hi.
apply list_lookup_imap_Some in Hi as (r0 & Hr0 & ->).
apply HP. by eapply Forall_lookup_1.
Qed.

Lemma baseline_reset_index f csf plasma t :
baseline_frame f csf plasma t → baseline_frame f csf plasma (reset_index t).
Proof. unfold baseline_frame, reset_index. simpl. by apply Forall_relabel. Qed.

Lemma baseline_mask f csf plasma t mask :
baseline_frame f csf plasma t → baseline_frame f csf plasma (getitem_mask t mask).
Proof. apply Forall_mask_rows. Qed.

Lemma baseline_dropna f csf plasma t :
baseline_frame f csf plasma t → baseline_frame f csf plasma (dropna t).
Proof. apply Forall_List_filter. Qed.

Lemma baseline_getitem_cols f csf plasma t cols t' :
baseline_frame f csf plasma t → getitem_cols t cols = Ok t' → baseline_frame f csf plasma t'.
Proof.
intros Ht [Hcols ->]%getitem_cols_Ok. unfold baseline_frame. simpl.
apply Forall_map. eapply Forall_impl; [exact Ht|].
intros r (i & rec & q & Hi & Hq & Hq0 & Hc). exists i, rec, q.
repeat split; try done. intros c. rewrite cell_restrict.
destruct (decide (c ∈ cols)) as [Hin|Hout]; [|done].
by rewrite Hc, decide_True by by apply Hcols.
Qed.

Lemma baseline_outcome_subset f csf plasma t o d :
baseline_frame f csf plasma t → outcome_subset t o = Ok d → baseline_frame f csf plasma d.
Proof.
intros Ht. unfold outcome_subset. destruct (getitem t o); [|discriminate].
intros [= <-]. by apply baseline_reset_index, baseline_mask.
Qed.

Lemma baseline_model_input f csf plasma sub t bms norm refprot o d t' :
baseline_frame f csf plasma t → baseline_frame f csf plasma d →
model_input sub t bms norm refprot o d = Ok t' → baseline_frame f csf plasma t'.
Proof.
intros Ht Hd. unfold model_input. destruct sub.
- destruct (getitem_cols _ _) as [sel|] eqn:Hsel; [|discriminate].
  intros [= <-]. apply baseline_reset_index, baseline_dropna.
  eapply baseline_getitem_cols; [exact Ht|exact Hsel].
- by intros [= <-].
Qed.

Lemma series_eq_mask (rs : list Row) :
mask_rows rs (series_eq (map (λ r, cell r "Visit") rs) 0) = List.filter baseline_row rs.
Proof. unfold series_eq. by rewrite map_map, mask_rows_map. Qed.

Lemma load_rows f w df0 w' :
load f w = (Ok df0, w') →
rows df0 = List.filter baseline_row (rows (read_csv f)).
Proof.
intros (_ & _ & ->)%load_Ok. unfold getitem_mask. simpl. apply series_eq_mask.
Qed.

Lemma cell_read_record cols i m c :
c ∈ cols → cell (read_record cols i m) c = m !! c.
Proof.
intros Hc. unfold cell, read_record. simpl.
destruct (m !! c) as [v|] eqn:Hm.
- by apply map_lookup_filter_Some.
- apply map_lookup_filter_None. by left.
Qed.

Lemma cell_read_record_outside cols i m c :
c ∉ cols → cell (read_record cols i m) c = None.
Proof.
intros Hc. unfold cell, read_record. simpl.
apply map_lookup_filter_None. right. intros v _. done.
Qed.

(** A column that is not in the table after the ratios are added is a
    column no row has a value in. *)
Lemma cell_row_ratios_outside df bs refprot out r c :
Fns.create_biomarker_ratios ratio_name df bs refprot = Ok out →
c ∉ columns out.1 →
(c ∉ columns df) ∧ cell (row_ratios ratio_name bs refprot r) c = cell r c.
Proof.
intros (_ & Hnames & Hcols)%create_biomarker_ratios_Ok Hc.
rewrite Hcols in Hc. split; [tauto|].
apply cell_row_ratios_other. apply Forall_forall. intros b Hb Heq.
apply Hc. right. rewrite Hnames. change (map ?f ?l) with (f <$> l).
apply list_elem_of_fmap. by exists b.
Qed.

(** The table the configuration cell works on: the baseline rows of
    the file with the ratios of both panels. *)
Lemma ratios_baseline f w df0 w' csf plasma r1 r2 :
load f w = (Ok df0, w') →
Fns.create_biomarker_ratios ratio_name df0 csf (csf_refprot cfg) = Ok r1 →
Fns.create_biomarker_ratios ratio_name r1.1 plasma (plasma_refprot cfg) = Ok r2 →
baseline_frame f csf plasma r2.1.
Proof.
intros Hl H1 H2. pose proof (load_rows _ _ _ _ Hl) as Hrows.
apply load_Ok in Hl as (Hv & _ & Hdf).
assert (columns df0 = header f) as Hcols0 by by rewrite Hdf.
pose proof (create_biomarker_ratios_Ok _ _ _ _ _ H1) as (Hr1 & _ & _).
pose proof (create_biomarker_ratios_Ok _ _ _ _ _ H2) as (Hr2 & _ & _).
unfold baseline_frame. rewrite Hr2, Hr1, Hrows, map_map.
apply Forall_map, Forall_forall. intros r Hr.
apply list_elem_of_In, filter_In in Hr as [Hr Hb].
apply list_elem_of_In, list_elem_of_lookup in Hr as [i Hi].
simpl in Hi. apply list_lookup_imap_Some in Hi as (rec & Hrec & ->).
unfold baseline_row in Hb. rewrite cell_read_record in Hb by done.
destruct (rec !! "Visit") as [q|] eqn:Hq; [|discriminate].
exists i, rec, q. repeat split; try done.
- by apply Qeq_bool_iff.
- intros c. fold (with_ratios csf plasma (read_record (header f) i rec)).
  destruct (decide (c ∈ columns r2.1)) as [Hin|Hout]; [done|].
  unfold with_ratios.
  destruct (cell_row_ratios_outside _ _ _ _
              (row_ratios ratio_name csf (csf_refprot cfg) (read_record (header f) i rec))
              c H2 Hout) as [Hout1 ->].
  destruct (cell_row_ratios_outside _ _ _ _ (read_record (header f) i rec) c H1 Hout1)
    as [Hout0 ->].
  apply cell_read_record_outside. by rewrite <- Hcols0.
Qed.

(** The tables named in the panel lists of the configuration. *)
Definition baseline_table (f : Csv) (t : DataFrame) : Prop :=
∃ csf plasma,
  PyList.list_display (csf_biomarkers_src cfg) = Some csf ∧
  PyList.list_display (plasma_biomarkers_src cfg) = Some plasma ∧
  baseline_frame f csf plasma t.

Definition baseline_event (f : Csv) (ev : event) : Prop :=
match ev with
| Compare t _ _ => baseline_table f t
| _ => True
end.

Definition baseline_env (f : Csv) (e : Env) : Prop :=
∃ csf plasma,
  PyList.list_display (csf_biomarkers_src cfg) = Some csf ∧
  PyList.list_display (plasma_biomarkers_src cfg) = Some plasma ∧
  baseline_frame f csf plasma (df e) ∧
  Forall (λ od, baseline_frame f csf plasma od.2) (outcomes e).

Lemma configure_events P df0 :
(∀ ev, match ev with Compare _ _ _ => False | _ => True end → P ev) →
spec P (λ _, True) (configure df0).
Proof.
intros HP. unfold Notebook.configure.
destruct (PyList.list_display _) as [csf|]; [|by apply spec_lift].
destruct (PyList.list_display _) as [plasma|]; [|by apply spec_lift].
repeat first
  [ by apply spec_ret
  | eapply spec_bind;
    [by first [apply (spec_emit _ (λ _, True)); [apply HP|]
              |apply (spec_lift _ (λ _, True))]|];
    intros ? _ ].
Qed.

Lemma configure_baseline f df0 :
(∃ w0, load f w0 = (Ok df0, w0)) →
spec (baseline_event f) (baseline_env f) (configure df0).
Proof.
intros [w0 Hl] w r w' Hc. split.
- eapply (configure_events (baseline_event f)); [|exact Hc]. by intros [].
- intros e ->.
  apply configure_Ok in Hc
    as (csf & plasma & r1 & r2 & Hcsf & Hpl & Hr1 & Hr2 & H1 & H2 & H3 & _ & _ & Hdf & _).
  pose proof (ratios_baseline _ _ _ _ _ _ _ _ Hl Hr1 Hr2) as Hb.
  exists csf, plasma. split; [done|]. split; [done|].
  split; [by rewrite Hdf|]. unfold outcomes.
  repeat constructor; simpl; by eapply baseline_outcome_subset.
Qed.

Lemma block_baseline f csf plasma t bms norm refprot o d msg :
PyList.list_display (csf_biomarkers_src cfg) = Some csf →
PyList.list_display (plasma_biomarkers_src cfg) = Some plasma →
baseline_frame f csf plasma t → baseline_frame f csf plasma d →
spec (baseline_event f) (λ _, True) (block t bms norm refprot o d msg).
Proof.
intros Hcsf Hpl Ht Hd. unfold Notebook.block.
eapply spec_bind.
{ apply (spec_lift _ (baseline_frame f csf plasma)). intros t'.
  by apply baseline_model_input. }
intros t' Ht'. eapply spec_bind.
{ apply (spec_emit _ (λ _, True)); [|done]. by exists csf, plasma. }
intros _ _.
eapply spec_bind; [by apply (spec_random _ (λ _, True))|]. intros res _.
eapply spec_bind; [by apply (spec_emit _ (λ _, True))|]. intros _ _.
eapply spec_bind; [by apply (spec_emit _ (λ _, True))|]. intros _ _.
by apply spec_ret.
Qed.

Lemma models_baseline f e :
baseline_env f e → spec (baseline_event f) (λ _, True) (models e).
Proof.
intros (csf & plasma & Hcsf & Hpl & Hdf & Hout). unfold outcomes in Hout.
apply Forall_cons in Hout as [H1 Hout]. apply Forall_cons in Hout as [H2 Hout].
apply Forall_cons in Hout as [H3 _]. simpl in *.
unfold Notebook.models.
repeat (eapply spec_bind; [by apply (block_baseline f csf plasma)|]; intros ? _).
by apply spec_ret.
Qed.

Lemma pipeline_baseline f : spec (baseline_event f) (λ _, True) (pipeline f).
Proof.
unfold pipeline.
eapply spec_bind; [apply load_spec|]. intros df0 Hl.
eapply spec_bind; [by apply configure_baseline|]. intros e He.
eapply spec_bind; [by apply models_baseline|]. intros res _.
apply save_plain. by intros [].
Qed.

Lemma run_without_visit f g :
"Visit" ∉ header f → run f g = Failed LoadCell (KeyError "Visit") (mkWorld g []).
Proof.
intros Hv. unfold Notebook.run, load, bind, lift, getitem. simpl.
by rewrite decide_False.
Qed.

(** The names of the ratio columns of the two panels. *)
Definition ratio_names (csf plasma : list string) : list string :=
map (λ b, ratio_name b (csf_refprot cfg)) csf
++ map (λ b, ratio_name b (plasma_refprot cfg)) plasma.

(** In a table that still has the [Visit] column of the file, a row
    that comes from a baseline record has [Visit] equal to 0. *)
Lemma from_baseline_visit f csf plasma cols r :
"Visit" ∈ header f → "Visit" ∈ cols → "Visit" ∉ ratio_names csf plasma →
from_baseline f csf plasma cols r → baseline_row r = true.
Proof.
intros Hh Hc Hn (i & rec & q & Hi & Hq & Hq0 & Hcells).
unfold ratio_names in Hn. rewrite elem_of_app in Hn.
assert (∀ bs refprot, "Visit" ∉ map (λ b, ratio_name b refprot) bs →
        Forall (λ b, ratio_name b refprot ≠ "Visit") bs) as Hall.
{ intros bs refprot Hbs. apply Forall_forall. intros b Hb Heq. apply Hbs.
  rewrite <- Heq. change (map ?f ?l) with (f <$> l).
  apply list_elem_of_fmap. by exists b. }
unfold baseline_row. rewrite Hcells, decide_True by done. unfold with_ratios.
rewrite !cell_row_ratios_other by (apply Hall; tauto).
rewrite cell_read_record, Hq by done. by apply Qeq_bool_iff.
Qed.

(** C10. The loading cell keeps exactly the rows whose [Visit] is 0,
    before any ratio is built or model fitted; a file without a
    [Visit] column makes the run fail at the loading cell with a
    [KeyError]; and every row of every table handed to the model
    comparison — in either subsetting mode — is the row of a record
    of the file whose [Visit] is 0: in every column of the table it
    has the value of that record, or the ratio computed from that
    record's values, and it has no other value.  In particular, when
    the table still has the [Visit] column of the file (no ratio
    column took its name), [Visit] is 0 in every row. *)
Theorem baseline_visits_only (f : Csv) (g : Fns.Rng) :
(∀ w df0 w', load f w = (Ok df0, w') →
   rows df0 = List.filter baseline_row (rows (read_csv f)) ∧ log w' = log w) ∧
("Visit" ∉ header f →
   run f g = Failed LoadCell (KeyError "Visit") (mkWorld g [])) ∧
(∀ t bms o, Compare t bms o ∈ log (world_of (run f g)) →
   ∃ csf plasma,
     PyList.list_display (csf_biomarkers_src cfg) = Some csf ∧
     PyList.list_display (plasma_biomarkers_src cfg) = Some plasma ∧
     Forall (from_baseline f csf plasma (columns t)) (rows t) ∧
     ("Visit" ∈ columns t → "Visit" ∉ ratio_names csf plasma →
      Forall (λ r, baseline_row r = true) (rows t))).
Proof.
split; [|split].
- intros w df0 w' Hl. split; [by eapply load_rows|].
  by apply load_Ok in Hl as (_ & -> & _).
- apply run_without_visit.
- intros t bms o Hin.
  assert ("Visit" ∈ header f) as Hh.
  { destruct (decide ("Visit" ∈ header f)) as [|Hout]; [done|].
    rewrite (run_without_visit _ _ Hout) in Hin. simpl in Hin.
    by apply elem_of_nil in Hin. }
  rewrite run_pipeline in Hin.
  destruct (pipeline f (mkWorld g [])) as [r w'] eqn:Hp.
  pose proof (spec_log _ _ _ _ _ _ (pipeline_baseline f) Hp) as Hall.
  rewrite Forall_forall in Hall.
  destruct (Hall _ Hin) as (csf & plasma & Hcsf & Hpl & Hrows).
  exists csf, plasma. split; [done|]. split; [done|]. split; [done|].
  intros Hc Hn. eapply Forall_impl; [exact Hrows|].
  intros r0 Hr0. by eapply from_baseline_visit.
Qed.

(** *** The output artifact *)

(** The comparisons a log reports as returned, and the files written. *)
Definition comparisons (l : list event) : list (list string * string * list Fns.Comparison) :=
omap (λ ev, match ev with Compared b o r => Some (b, o, r) | _ => None end) l.

Definition dumps (l : list event) : list (string * list (list Fns.PRecord)) :=
omap (λ ev, match ev with Dump file obj => Some (file, obj) | _ => None end) l.

(** The first table a log reports as handed to the model comparison. *)
Definition first_compare (l : list event) : option (DataFrame * list string * string) :=
head (omap (λ ev, match ev with Compare t b o => Some (t, b, o) | _ => None end) l).

Lemma first_compare_elem l t b o :
first_compare l = Some (t, b, o) → Compare t b o ∈ l.
Proof.
unfold first_compare. induction l as [|ev l IH]; [done|].
destruct ev; simpl; try (intros H; right; by apply IH).
intros [= -> -> ->]. left.
Qed.

Lemma block_Ok t bms norm refprot o d msg w res w' :
block t bms norm refprot o d msg w = (Ok res, w') →
∃ t' g',
  model_input (subset cfg) t bms norm refprot o d = Ok t' ∧
  Fns.compare_biomarkers t' bms norm refprot o (n_iter cfg) (rng w) = (Ok res, g') ∧
  w' = mkWorld g' (log w ++ [Compare t' bms o; Compared bms o res; Printed msg]).
Proof.
unfold Notebook.block.
intros (t' & ? & (Ht' & ->)%lift_Ok & H)%bind_Ok.
apply bind_Ok in H as (? & ? & ->%emit_Ok & H).
apply bind_Ok in H as (res' & ? & (g' & Hres & ->)%random_Ok & H).
apply bind_Ok in H as (? & ? & ->%emit_Ok & H).
apply bind_Ok in H as (? & ? & ->%emit_Ok & H).
injection H as <- <-. simpl in *. exists t', g'. repeat split; try done.
by rewrite <- !app_assoc.
Qed.

(** What one block of the model cell returned: the comparison of the
    block's table by [compare_biomarkers], started with the generator
    in the state [g] and leaving it in the state [g']. *)
Definition block_result (e : Env) (bms norm : list string) (refprot o : string)
    (d : DataFrame) (g : Fns.Rng) (res : list Fns.Comparison) (g' : Fns.Rng) : Prop :=
∃ t,
  model_input (subset cfg) (df e) bms norm refprot o d = Ok t ∧
  Fns.compare_biomarkers t bms norm refprot o (n_iter cfg) g = (Ok res, g').

Lemma models_Ok e w res w' :
models e w = (Ok res, w') →
∃ c1 c2 c3 p1 p2 p3 g1 g2 g3 g4 g5 evs,
  res = ([c1; c2; c3], [p1; p2; p3]) ∧
  log w' = log w ++ evs ∧
  comparisons evs =
    [ (csf_biomarkers e, tau_pet_braak_I_IV cfg, c1);
      (csf_biomarkers e, tau_pet_braak_V_VI cfg, c2);
      (csf_biomarkers e, amyloid_pet cfg, c3);
      (plasma_biomarkers e, tau_pet_braak_I_IV cfg, p1);
      (plasma_biomarkers e, tau_pet_braak_V_VI cfg, p2);
      (plasma_biomarkers e, amyloid_pet cfg, p3) ] ∧
  dumps evs = [] ∧
  let csf := block_result e (csf_biomarkers e) (csf_biomarkers_normalized e)
               (csf_refprot cfg) in
  let plasma := block_result e (plasma_biomarkers e) (plasma_biomarkers_normalized e)
                  (plasma_refprot cfg) in
  csf (tau_pet_braak_I_IV cfg) (df_tau_pet_braak_I_IV e) (rng w) c1 g1 ∧
  csf (tau_pet_braak_V_VI cfg) (df_tau_pet_braak_V_VI e) g1 c2 g2 ∧
  csf (amyloid_pet cfg) (df_amyloid_pet e) g2 c3 g3 ∧
  plasma (tau_pet_braak_I_IV cfg) (df_tau_pet_braak_I_IV e) g3 p1 g4 ∧
  plasma (tau_pet_braak_V_VI cfg) (df_tau_pet_braak_V_VI e) g4 p2 g5 ∧
  plasma (amyloid_pet cfg) (df_amyloid_pet e) g5 p3 (rng w').
Proof.
unfold Notebook.models.
intros (c1 & w1 & (t1 & g1 & I1 & R1 & ->)%block_Ok & H)%bind_Ok.
apply bind_Ok in H as (c2 & w2 & (t2 & g2 & I2 & R2 & ->)%block_Ok & H).
apply bind_Ok in H as (c3 & w3 & (t3 & g3 & I3 & R3 & ->)%block_Ok & H).
apply bind_Ok in H as (p1 & w4 & (t4 & g4 & I4 & R4 & ->)%block_Ok & H).
apply bind_Ok in H as (p2 & w5 & (t5 & g5 & I5 & R5 & ->)%block_Ok & H).
apply bind_Ok in H as (p3 & w6 & (t6 & g6 & I6 & R6 & ->)%block_Ok & H).
injection H as <- <-. simpl in *.
eexists c1, c2, c3, p1, p2, p3, g1, g2, g3, g4, g5, _. split; [done|].
split; [by rewrite <- !app_assoc|]. split; [done|]. split; [done|].
unfold block_result. repeat split; eauto.
Qed.

Lemma save_Ok e res w u w' :
save e res w = (Ok u, w') →
log w' = log w ++
  [ GetPvalues (csf_biomarkers_normalized e);
    GetPvalues (plasma_biomarkers_normalized e);
    Dump "linreg_results.pkl"
      (Fns.get_pvalues res.1 (csf_biomarkers_normalized e) (n_iter cfg)
       ++ Fns.get_pvalues res.2 (plasma_biomarkers_normalized e) (n_iter cfg)) ].
Proof.
unfold Notebook.save.
intros (? & ? & ->%emit_Ok & H)%bind_Ok.
apply bind_Ok in H as (? & ? & ->%emit_Ok & H).
apply emit_Ok in H as ->. simpl. by rewrite <- !app_assoc.
Qed.

Lemma run_Completed f g w :
run f g = Completed w →
∃ df0 e res w1 w2 w3 u,
  load f (mkWorld g []) = (Ok df0, w1) ∧ configure df0 w1 = (Ok e, w2) ∧
  models e w2 = (Ok res, w3) ∧ save e res w3 = (Ok u, w).
Proof.
unfold Notebook.run.
destruct (load f _) as [[df0|x] w1] eqn:Hl; [|discriminate].
destruct (Notebook.configure _ _ df0 w1) as [[e|x] w2] eqn:Hc; [|discriminate].
destruct (Notebook.models _ e w2) as [[res|x] w3] eqn:Hm; [|discriminate].
destruct (Notebook.save _ e res w3) as [[u|x] w4] eqn:Hs; [|discriminate].
intros [= <-]. by exists df0, e, res, w1, w2, w3, u.
Qed.

Lemma comparisons_app l1 l2 : comparisons (l1 ++ l2) = comparisons l1 ++ comparisons l2.
Proof. apply omap_app. Qed.

Lemma dumps_app l1 l2 : dumps (l1 ++ l2) = dumps l1 ++ dumps l2.
Proof. apply omap_app. Qed.

(** C6. A run that completes has written exactly one file, as its last
    action: the list of the six result sets — CSF then plasma, each for
    temporal tau, cortical tau and amyloid, each set with the p-values
    of its family — built from the six comparisons in the order they
    were made.  Each of the six comparisons is what
    [compare_biomarkers] returned for the table of its block, the six
    calls drawing from the generator one after the other; the object
    written is [get_pvalues] of the three CSF results followed by
    [get_pvalues] of the three plasma results; and the write comes
    after the six comparisons and the two [get_pvalues] calls, with
    nothing after it. *)
Theorem one_artifact_six_result_sets (f : Csv) (g : Fns.Rng) (w : World) :
run f g = Completed w →
∃ csf plasma c1 c2 c3 p1 p2 p3,
  PyList.list_display (csf_biomarkers_src cfg) = Some csf ∧
  PyList.list_display (plasma_biomarkers_src cfg) = Some plasma ∧
  comparisons (log w) =
    [ (csf, tau_pet_braak_I_IV cfg, c1);
      (csf, tau_pet_braak_V_VI cfg, c2);
      (csf, amyloid_pet cfg, c3);
      (plasma, tau_pet_braak_I_IV cfg, p1);
      (plasma, tau_pet_braak_V_VI cfg, p2);
      (plasma, amyloid_pet cfg, p3) ] ∧
  dumps (log w) =
    [ ("linreg_results.pkl", map Fns.family_pvalues [c1; c2; c3; p1; p2; p3]) ] ∧
  last (log w) =
    Some (Dump "linreg_results.pkl" (map Fns.family_pvalues [c1; c2; c3; p1; p2; p3])) ∧
  ∃ df0 w1 e w2 g1 g2 g3 g4 g5 g6 evs,
    load f (mkWorld g []) = (Ok df0, w1) ∧ configure df0 w1 = (Ok e, w2) ∧
    csf_biomarkers e = csf ∧ plasma_biomarkers e = plasma ∧
    (let csf_block := block_result e csf (csf_biomarkers_normalized e) (csf_refprot cfg) in
     let plasma_block :=
       block_result e plasma (plasma_biomarkers_normalized e) (plasma_refprot cfg) in
     csf_block (tau_pet_braak_I_IV cfg) (df_tau_pet_braak_I_IV e) g c1 g1 ∧
     csf_block (tau_pet_braak_V_VI cfg) (df_tau_pet_braak_V_VI e) g1 c2 g2 ∧
     csf_block (amyloid_pet cfg) (df_amyloid_pet e) g2 c3 g3 ∧
     plasma_block (tau_pet_braak_I_IV cfg) (df_tau_pet_braak_I_IV e) g3 p1 g4 ∧
     plasma_block (tau_pet_braak_V_VI cfg) (df_tau_pet_braak_V_VI e) g4 p2 g5 ∧
     plasma_block (amyloid_pet cfg) (df_amyloid_pet e) g5 p3 g6) ∧
    log w = evs ++
      [ GetPvalues (csf_biomarkers_normalized e);
        GetPvalues (plasma_biomarkers_normalized e);
        Dump "linreg_results.pkl"
          (Fns.get_pvalues [c1; c2; c3] (csf_biomarkers_normalized e) (n_iter cfg)
           ++ Fns.get_pvalues [p1; p2; p3] (plasma_biomarkers_normalized e) (n_iter cfg)) ] ∧
    comparisons evs = comparisons (log w) ∧
    dumps evs = [] ∧
    rng w = g6.
Proof.
intros (df0 & e & res & w1 & w2 & w3 & u & Hl & Hc & Hm & Hs)%run_Completed.
pose proof (load_Ok _ _ _ _ Hl) as (_ & Hw1 & _).
pose proof (configure_Ok _ _ _ _ Hc)
  as (csf & plasma & r1 & r2 & Hcsf & Hpl & _ & _ & _ & _ & _
      & Ecsf & Epl & _ & _ & _ & Hlog2 & Hrng2).
pose proof (models_Ok _ _ _ _ Hm)
  as (c1 & c2 & c3 & p1 & p2 & p3 & g1 & g2 & g3 & g4 & g5 & evs
      & -> & Hlog3 & Hcmp & Hdmp & Hblocks).
pose proof (save_Ok _ _ _ _ _ Hs) as Hlogw. simpl in Hlogw.
assert (rng w = rng w3) as Hrngw.
{ unfold Notebook.save, bind, emit in Hs. simpl in Hs. by injection Hs as _ <-. }
subst w1. simpl in Hlog2, Hrng2.
exists csf, plasma, c1, c2, c3, p1, p2, p3. split; [done|]. split; [done|].
rewrite Hlogw, Hlog3, Hlog2. split; [|split; [|split]].
- rewrite !comparisons_app, Hcmp, Ecsf, Epl. done.
- rewrite !dumps_app, Hdmp. done.
- by rewrite last_app.
- eexists df0, (mkWorld g []), e, w2, g1, g2, g3, g4, g5, (rng w3), _.
  split; [done|]. split; [done|]. split; [done|]. split; [done|].
  split; [|split; [reflexivity|split; [|split; [|done]]]].
  + cbv zeta in *. rewrite Hrng2, Ecsf, Epl in Hblocks. exact Hblocks.
  + rewrite !comparisons_app. simpl. by rewrite !app_nil_r.
  + rewrite !dumps_app, Hdmp. done.
Qed.

End DriverFacts.

(** ** The notebook as shipped *)

Section Shipped.

Import Notebook.

Variable ratio_name : string → string → string.

Lemma shipped_csf_display : PyList.list_display (csf_biomarkers_src shipped) = None.
Proof. vm_compute. reflexivity. Qed.

Lemma shipped_plasma_display :
PyList.list_display (plasma_biomarkers_src shipped)
= Some ["Plasma_ptau217_Lilly"; "Plasma_ptau181_Lilly"; "Plasma_ptau205_WashU";
        "Plasma_eMTBRtau243_WashU"; "Plasma_Ab42_WashU"].
Proof. vm_compute. reflexivity. Qed.

(** What the tokenizer makes of the doubled comma: two [COMMA] tokens
    in a row, which no list display allows. *)
Lemma doubled_comma_rejected (ts : list PyList.token) :
PyList.parse PyList.WantItem (PyList.COMMA :: ts) = None.
Proof. reflexivity. Qed.

Lemma configure_shipped df0 w :
configure ratio_name shipped df0 w = (Raise SyntaxError, w).
Proof. unfold configure. by rewrite shipped_csf_display. Qed.

(** C3, as amended. The list display of [csf_biomarkers] in the shipped
    configuration cell has a doubled comma and does not parse, so the
    cell raises a syntax error whenever it is run; for every input
    table with a [Visit] column the run fails at that cell, with
    nothing printed, no ratio built, no model fitted and no file
    written; and no run of the shipped notebook completes. *)
Theorem shipped_fails_at_configuration (f : Csv) (g : Fns.Rng) :
"Visit" ∈ header f →
(∀ df0 w, configure ratio_name shipped df0 w = (Raise SyntaxError, w)) ∧
run ratio_name shipped f g = Failed ConfigureCell SyntaxError (mkWorld g []) ∧
(∀ f' g' w, run ratio_name shipped f' g' ≠ Completed w).
Proof.
intros Hv. split; [apply configure_shipped|]. split.
- unfold run, load, Notebook.bind, lift, ret.
  rewrite (getitem_elem (read_csv f) "Visit") by done.
  by rewrite configure_shipped.
- intros f' g' w. unfold run.
  destruct (load f' _) as [[df0|x] w1]; [|done].
  by rewrite configure_shipped.
Qed.

End Shipped.

(** ** The bootstrap engine *)

Section BootstrapFacts.

Import Fns.

Lemma resample_spec n g :
length (resample n g).1 = n ∧ Forall (λ i, i < n) (resample n g).1.
Proof.
unfold resample. simpl. split; [by rewrite length_map, length_seq|].
apply Forall_forall. intros i Hi.
apply list_elem_of_In, in_map_iff in Hi as (k & <- & Hk%in_seq).
unfold draw_index. apply Nat.mod_upper_bound. lia.
Qed.

Lemma bootstrap_S k x_raw x_norm y g :
bootstrap (S k) x_raw x_norm y g =
  let (idx, g1) := resample (length y) g in
  let (rest, g2) := bootstrap k x_raw x_norm y g1 in
  ((fit_on x_raw y idx, fit_on x_norm y idx) :: rest, g2).
Proof. reflexivity. Qed.

Lemma bootstrap_paired n_iter x_raw x_norm y g :
length (bootstrap n_iter x_raw x_norm y g).1 = n_iter ∧
Forall (λ it, rows_used it.1 = rows_used it.2) (bootstrap n_iter x_raw x_norm y g).1.
Proof.
revert g. induction n_iter as [|k IH]; intros g; [by split|].
rewrite bootstrap_S.
destruct (resample (length y) g) as [idx g1] eqn:Hr.
specialize (IH g1). destruct (bootstrap k x_raw x_norm y g1) as [rest g2].
simpl in *. destruct IH as [Hlen Hall]. split; [by rewrite Hlen|].
by constructor.
Qed.

Lemma omap_cell_imap (g : nat → Row → Row) (l : list Row) c :
(∀ i r, cells (g i r) = cells r) →
omap (λ r, cell r c) (imap g l) = omap (λ r, cell r c) l.
Proof.
revert g. induction l as [|r l IH]; intros g Hg; [done|].
rewrite imap_cons. simpl.
change (list_omap Row Q ?h ?k) with (omap h k).
rewrite (IH (g ∘ S)) by (intros i r'; apply Hg).
unfold cell at 1 3. by rewrite Hg.
Qed.

Lemma values_reset_index (df : DataFrame) c :
values (reset_index df) c = values df c.
Proof. unfold values, reset_index. simpl. by apply omap_cell_imap. Qed.

Lemma length_omap_present (l : list Row) c :
Forall (λ r, is_Some (cell r c)) l → length (omap (λ r, cell r c) l) = length l.
Proof.
induction 1 as [|r l [v Hv] _ IH]; simpl; [done|]. rewrite Hv. simpl.
f_equal. exact IH.
Qed.

Lemma length_values_complete (df : DataFrame) c :
c ∈ columns df → length (values (reset_index (dropna df)) c) = len (reset_index (dropna df)).
Proof.
intros Hc. rewrite values_reset_index, len_reset_index. unfold values, len, dropna. simpl.
apply length_omap_present, Forall_forall. intros r Hr.
apply list_elem_of_In, filter_In in Hr as [_ Hr]. by eapply complete_elem.
Qed.

(** The rows both variants of a biomarker are fitted on, as
    [compare_one] builds them: those where the biomarker, its ratio and
    the outcome are all present, re-indexed. *)
Definition pair_subset (df : DataFrame) (b bn o : string) : result DataFrame :=
try sel <- getitem_cols df [b; bn; o];
Ok (reset_index (dropna sel)).

(** One iteration on a subset: both fits are computed on one resample
    [idx] of the subset's rows. *)
Definition paired_on (sub : DataFrame) (b bn o : string) (it : Fit * Fit) : Prop :=
∃ idx,
  it = (fit_on (values sub b) (values sub o) idx,
        fit_on (values sub bn) (values sub o) idx) ∧
  length idx = len sub ∧ Forall (λ i, i < len sub) idx.

Lemma bootstrap_fits n_iter x_raw x_norm y g :
Forall (λ it, ∃ idx, it = (fit_on x_raw y idx, fit_on x_norm y idx) ∧
                     length idx = length y ∧ Forall (λ i, i < length y) idx)
       (bootstrap n_iter x_raw x_norm y g).1.
Proof.
revert g. induction n_iter as [|k IH]; intros g; [constructor|].
rewrite bootstrap_S.
destruct (resample (length y) g) as [idx g1] eqn:Hr.
specialize (IH g1). destruct (bootstrap k x_raw x_norm y g1) as [rest g2].
simpl in *. constructor; [|done]. exists idx.
pose proof (resample_spec (length y) g) as [H1 H2]. rewrite Hr in H1, H2. done.
Qed.

Lemma compare_one_Ok df o n_iter b bn g c g' :
compare_one df o n_iter b bn g = (Ok c, g') →
∃ sub,
  pair_subset df b bn o = Ok sub ∧
  biomarker c = b ∧ normalized c = bn ∧ n_obs c = len sub ∧ 0 < n_obs c ∧
  length (boot c) = n_iter ∧ Forall (paired_on sub b bn o) (boot c) ∧
  fit_raw c = fit_on (values sub b) (values sub o) (seq 0 (len sub)) ∧
  fit_norm c = fit_on (values sub bn) (values sub o) (seq 0 (len sub)).
Proof.
unfold compare_one, pair_subset.
destruct (getitem_cols df [b; bn; o]) as [sel|] eqn:Hsel; [|discriminate]. simpl.
destruct (decide (len _ = 0)) as [|Hne]; [discriminate|].
set (sub := reset_index (dropna sel)) in *.
destruct (bootstrap _ _ _ _ _) as [bs g1] eqn:Hb. intros [= <- <-]. simpl.
pose proof (bootstrap_paired n_iter (values sub b) (values sub bn) (values sub o) g) as [Hl _].
pose proof (bootstrap_fits n_iter (values sub b) (values sub bn) (values sub o) g) as Hp.
rewrite Hb in Hl, Hp. simpl in *.
assert (length (values sub o) = len sub) as Hlen.
{ apply getitem_cols_Ok in Hsel as [_ ->]. apply length_values_complete. simpl.
  rewrite !elem_of_cons. auto. }
rewrite Hlen in Hp. exists sub. repeat split; try done. lia.
Qed.

Lemma compare_pairs_Ok df o n_iter pairs g res g' :
compare_pairs df o n_iter pairs g = (Ok res, g') →
Forall2 (λ p c, ∃ sub,
           pair_subset df p.1 p.2 o = Ok sub ∧
           biomarker c = p.1 ∧ normalized c = p.2 ∧ n_obs c = len sub ∧
           length (boot c) = n_iter ∧ Forall (paired_on sub p.1 p.2 o) (boot c) ∧
           rows_used (fit_raw c) = rows_used (fit_norm c))
        pairs res.
Proof.
revert g res g'. induction pairs as [|[b bn] pairs IH]; intros g res g'; simpl.
- intros [= <- <-]. constructor.
- destruct (compare_one df o n_iter b bn g) as [[c|e] g1] eqn:Hc; [|discriminate].
  destruct (compare_pairs df o n_iter pairs g1) as [[cs|e] g2] eqn:Hcs; [|discriminate].
  intros [= <- <-]. constructor; [|by eapply IH].
  apply compare_one_Ok in Hc as (sub & ? & ? & ? & ? & ? & ? & ? & Hr & Hn).
  exists sub. repeat split; try done. by rewrite Hr, Hn.
Qed.

Lemma compare_biomarkers_boot_length df bms norm refprot o n_iter g res g' :
compare_biomarkers df bms norm refprot o n_iter g = (Ok res, g') →
Forall (λ c, length (boot c) = n_iter) res.
Proof.
unfold compare_biomarkers. intros H%compare_pairs_Ok.
induction H as [|p c pairs res (sub & _ & _ & _ & _ & Hlen & _) _ IH]; by constructor.
Qed.

(** C1. In every record [compare_biomarkers] returns — one per
    biomarker, in order — there are [n_iter] bootstrap iterations, and
    in each of them the raw fit and the ratio fit are computed on one
    and the same resample of the rows of the biomarker's subset, so
    the row positions the two fits used are identical; the two
    full-data fits share their rows too. *)
Theorem paired_resamples df bms norm refprot o n_iter g res g' :
compare_biomarkers df bms norm refprot o n_iter g = (Ok res, g') →
map biomarker res = (zip bms norm).*1 ∧
Forall (λ c,
  length (boot c) = n_iter ∧
  rows_used (fit_raw c) = rows_used (fit_norm c) ∧
  ∃ sub,
    pair_subset df (biomarker c) (normalized c) o = Ok sub ∧ n_obs c = len sub ∧
    ∀ k it, boot c !! k = Some it →
      paired_on sub (biomarker c) (normalized c) o it ∧
      rows_used it.1 = rows_used it.2) res.
Proof.
unfold compare_biomarkers. intros H%compare_pairs_Ok.
induction H as [|p c pairs res (sub & Hsub & Hb & Hbn & Hn & Hlen & Hp & Hfull) _ [IH1 IH2]];
  [done|].
split; [simpl; by rewrite Hb, IH1|]. constructor; [|done].
split; [done|]. split; [done|]. exists sub. rewrite Hb, Hbn.
split; [done|]. split; [done|]. intros k it Hk.
rewrite Forall_lookup in Hp. pose proof (Hp _ _ Hk) as Hit.
split; [done|]. by destruct Hit as (idx & -> & _).
Qed.

(** *** Degenerate resamples *)

(** Zero variance: the squared deviations from the mean sum to zero. *)
Definition degenerate (l : list Q) : Prop :=
∀ m, mean l = Some m → (ss m l == 0)%Q.

Lemma qdiv_zero a b : (b == 0)%Q → qdiv a b = None.
Proof. intros Hb. unfold qdiv. apply Qeq_bool_iff in Hb. by rewrite Hb. Qed.

Lemma ols_degenerate xs ys : degenerate xs ∨ degenerate ys → ols xs ys = None.
Proof.
intros Hd. unfold ols.
destruct (mean xs) as [mx|] eqn:Hmx; [|done]. simpl.
destruct (mean ys) as [my|] eqn:Hmy; [|done]. simpl.
destruct Hd as [Hd|Hd].
- by rewrite (qdiv_zero _ _ (Hd _ Hmx)).
- destruct (qdiv (sp _ _ _ _) _) as [b|]; [|done]. simpl.
  by rewrite (qdiv_zero _ _ (Hd _ Hmy)).
Qed.

Lemma ss_constant m l : Forall (λ x, x == m)%Q l → (ss m l == 0)%Q.
Proof.
unfold ss. induction 1 as [|x l Hx _ IH]; simpl; [reflexivity|].
rewrite IH. unfold sq. rewrite Hx. ring.
Qed.

Lemma qsum_constant v l : Forall (λ x, x == v)%Q l → (qsum l == of_nat (length l) * v)%Q.
Proof.
induction 1 as [|x l Hx _ IH]; simpl.
- unfold of_nat. simpl. ring.
- rewrite IH, Hx. unfold of_nat. rewrite Nat2Z.inj_succ, <- Z.add_1_r, inject_Z_plus. ring.
Qed.

(** A resample in which all values are equal is degenerate. *)
Lemma constant_degenerate v l : Forall (λ x, x == v)%Q l → degenerate l.
Proof.
intros Hl m Hm. apply ss_constant. unfold mean, qdiv in Hm.
destruct (Qeq_bool _ 0) eqn:Hz; [discriminate|]. injection Hm as <-.
apply Qeq_bool_neq in Hz. pose proof (qsum_constant v l Hl) as Hs.
eapply Forall_impl; [exact Hl|]. intros x Hx. simpl. rewrite Hx, Hs.
fold (of_nat (length l)). field. exact Hz.
Qed.

Definition is_ok {A} (r : result A) : bool :=
match r with Ok _ => true | Raise _ => false end.

Lemma compare_one_independent df o b bn n g n' g' :
is_ok (compare_one df o n b bn g).1 = is_ok (compare_one df o n' b bn g').1.
Proof.
unfold compare_one. destruct (getitem_cols df [b; bn; o]) as [sel|]; [|done].
destruct (decide (len _ = 0)); [done|].
by do 2 destruct (bootstrap _ _ _ _ _).
Qed.

Lemma compare_biomarkers_independent df bms norm refprot o n g n' g' :
is_ok (compare_biomarkers df bms norm refprot o n g).1
= is_ok (compare_biomarkers df bms norm refprot o n' g').1.
Proof.
unfold compare_biomarkers. revert g g'.
induction (zip bms norm) as [|[b bn] pairs IH]; intros g g'; simpl; [done|].
pose proof (compare_one_independent df o b bn n g n' g') as H1.
destruct (compare_one df o n b bn g) as [[c|e] g1];
  destruct (compare_one df o n' b bn g') as [[c'|e'] g1']; simpl in H1; try done.
specialize (IH g1 g1').
destruct (compare_pairs df o n pairs g1) as [[cs|e] g2];
  destruct (compare_pairs df o n' pairs g1') as [[cs'|e'] g2']; done.
Qed.

Lemma finite_pairs_skip raw norm v :
finite_pairs (None :: raw) (v :: norm) = finite_pairs raw norm ∧
finite_pairs (v :: raw) (None :: norm) = finite_pairs raw norm.
Proof. unfold finite_pairs. simpl. by destruct v. Qed.

(** C9. The bootstrap loop records one pair of fits per iteration,
    whatever the resamples are; a fit on a resample with zero variance
    in the predictor or in the outcome has the undefined R² [None];
    whether [compare_biomarkers] raises does not depend on the number
    of iterations or on the random draws; and an iteration with an
    undefined R² is left out when the p-value is computed. *)
Theorem degenerate_resample_recorded n_iter x_raw x_norm y g :
length (bootstrap n_iter x_raw x_norm y g).1 = n_iter ∧
(∀ k it, (bootstrap n_iter x_raw x_norm y g).1 !! k = Some it →
   (degenerate (take_rows x_raw (rows_used it.1)) ∨
    degenerate (take_rows y (rows_used it.1)) → r2 it.1 = None) ∧
   (degenerate (take_rows x_norm (rows_used it.2)) ∨
    degenerate (take_rows y (rows_used it.2)) → r2 it.2 = None)) ∧
(∀ df bms norm refprot o n' g',
   is_ok (compare_biomarkers df bms norm refprot o n_iter g).1
   = is_ok (compare_biomarkers df bms norm refprot o n' g').1) ∧
(∀ raw norm v,
   empirical_p (None :: raw) (v :: norm) = empirical_p raw norm ∧
   empirical_p (v :: raw) (None :: norm) = empirical_p raw norm).
Proof.
split; [apply bootstrap_paired|]. split; [|split].
- revert g. induction n_iter as [|n IH]; intros g k it; [done|].
  rewrite bootstrap_S.
  destruct (resample (length y) g) as [idx g1].
  specialize (IH g1). destruct (bootstrap n x_raw x_norm y g1) as [rest g2].
  destruct k as [|k]; simpl.
  + intros [= <-]. simpl. unfold r2, fit_on. simpl.
    split; intros Hd; by rewrite ols_degenerate.
  + apply IH.
- intros. apply compare_biomarkers_independent.
- intros raw norm v. unfold empirical_p.
  destruct (finite_pairs_skip raw norm v) as [-> ->]. done.
Qed.

End BootstrapFacts.

(** ** P-values *)

Section PvalueFacts.

Import Fns.

Local Open Scope Q_scope.

Lemma of_nat_pos n : (1 ≤ n)%nat → 0 < of_nat n.
Proof. intros Hn. unfold of_nat, Qlt. simpl. lia. Qed.

Lemma of_nat_le n m : (n ≤ m)%nat → of_nat n <= of_nat m.
Proof. intros Hn. unfold of_nat. rewrite <- Zle_Qle. lia. Qed.

Lemma count_le_bound l : (count_le l ≤ length l)%nat.
Proof. unfold count_le. apply filter_length_le. Qed.

Lemma empirical_p_range raw norm :
0 < empirical_p raw norm ∧ empirical_p raw norm <= 1.
Proof.
unfold empirical_p. set (fp := finite_pairs raw norm).
assert (0 < of_nat (length fp + 1)) as Hd by (apply of_nat_pos; lia).
split.
- apply Qlt_shift_div_l; [done|]. rewrite Qmult_0_l. apply of_nat_pos. lia.
- apply Qle_shift_div_r; [done|]. rewrite Qmult_1_l. apply of_nat_le.
  pose proof (count_le_bound fp). lia.
Qed.

Lemma length_finite_pairs_le raw norm :
(length (finite_pairs raw norm) ≤ length (zip raw norm))%nat.
Proof.
unfold finite_pairs. induction (zip raw norm) as [|it l IH]; simpl; [done|].
change (list_omap _ _ finite_pair l) with (omap finite_pair l).
destruct (finite_pair it); simpl; lia.
Qed.

Lemma finite_pairs_all_finite (l : list (option Q * option Q)) :
Forall (λ it, is_Some it.1 ∧ is_Some it.2) l →
length (omap finite_pair l) = length l.
Proof.
induction 1 as [|[a b] l [[x Hx] [y Hy]] _ IH]; simpl; [done|].
simpl in Hx, Hy. subst a b. simpl. f_equal. exact IH.
Qed.

Lemma family_pvalues_lookup fam i r :
family_pvalues fam !! i = Some r →
∃ c a, fam !! i = Some c ∧ fdr_bh (map p_of fam) !! i = Some a ∧
       r = mkPRecord c (effective c) (p_of c) a.
Proof.
unfold family_pvalues. intros H.
apply lookup_zip_with_Some in H as (c & a & -> & Hc & Ha). by exists c, a.
Qed.

(** C4. Every record of the p-value stage carries the empirical
    p-value [(1 + k) / (n + 1)], where [n] counts the bootstrap
    iterations in which both R² values are finite and [k] those among
    them with normalized R² ≤ raw R²; [n] is the number of iterations
    when none is excluded — [n_iter] for a comparison that
    [compare_biomarkers] made with [n_iter] iterations; and the
    p-value lies in (0, 1], whatever the bootstrap values are. *)
Theorem empirical_pvalue_formula all_res names n_iter fam i r :
get_pvalues all_res names n_iter !! i = Some fam →
r ∈ fam →
let c := comparison r in
let fp := finite_pairs (boot_raw c) (boot_norm c) in
pvalue r = of_nat (1 + count_le fp) / of_nat (length fp + 1) ∧
n_eff r = length fp ∧
(n_eff r ≤ length (boot c))%nat ∧
(Forall (λ it, is_Some (r2 it.1) ∧ is_Some (r2 it.2)) (boot c) →
   n_eff r = length (boot c) ∧
   ∀ df bms norm refprot o g res g',
     compare_biomarkers df bms norm refprot o n_iter g = (Ok res, g') → c ∈ res →
     pvalue r = of_nat (1 + count_le fp) / of_nat (n_iter + 1)) ∧
0 < pvalue r ∧ pvalue r <= 1.
Proof.
unfold get_pvalues. intros Hfam Hr. simpl.
change (map family_pvalues all_res) with (family_pvalues <$> all_res) in Hfam.
rewrite list_lookup_fmap in Hfam.
destruct (all_res !! i) as [fam0|]; [|discriminate]. injection Hfam as <-.
apply list_elem_of_lookup in Hr as [j Hj].
apply family_pvalues_lookup in Hj as (c & a & _ & _ & ->). simpl.
assert (zip (boot_raw c) (boot_norm c) = map (λ it, (r2 it.1, r2 it.2)) (boot c)) as Hzip.
{ unfold boot_raw, boot_norm. induction (boot c) as [|it l IH]; simpl; [done|]. by rewrite IH. }
split; [done|]. split; [done|]. split; [|split].
- unfold effective. etrans; [apply length_finite_pairs_le|].
  by rewrite Hzip, length_map.
- intros Hall.
  assert (length (finite_pairs (boot_raw c) (boot_norm c)) = length (boot c)) as Hn.
  { unfold finite_pairs. rewrite Hzip.
    rewrite finite_pairs_all_finite, length_map; [done|].
    apply Forall_map. eapply Forall_impl; [exact Hall|]. done. }
  split; [exact Hn|]. intros df bms norm refprot o g res g' Hres Hc.
  apply compare_biomarkers_boot_length in Hres. rewrite Forall_forall in Hres.
  unfold p_of, empirical_p. by rewrite Hn, (Hres _ Hc).
- apply empirical_p_range.
Qed.

(** *** Benjamini–Hochberg *)

Lemma scale_ge q k m :
0 <= q → (1 ≤ k)%nat → (k ≤ m)%nat → q <= q / (of_nat k / of_nat m).
Proof.
intros Hq Hk Hm.
assert (0 < of_nat k) as Hk0 by by apply of_nat_pos.
assert (0 < of_nat m) as Hm0 by (apply of_nat_pos; lia).
assert (0 < of_nat k / of_nat m) as Hc.
{ apply Qlt_shift_div_l; [done|]. by rewrite Qmult_0_l. }
assert (of_nat k / of_nat m <= 1) as Hc1.
{ apply Qle_shift_div_r; [done|]. rewrite Qmult_1_l. by apply of_nat_le. }
apply Qle_shift_div_l; [done|]. nra.
Qed.

Lemma scale_mono q1 q k m :
0 <= q1 → q1 <= q → (1 ≤ k)%nat → (1 ≤ m)%nat →
q1 / (of_nat (S k) / of_nat m) <= q / (of_nat k / of_nat m).
Proof.
intros Hq1 Hq Hk Hm.
assert (0 < of_nat k) as Hk0 by by apply of_nat_pos.
assert (0 < of_nat (S k)) as Hk1 by (apply of_nat_pos; lia).
assert (0 < of_nat m) as Hm0 by by apply of_nat_pos.
assert (0 < of_nat k / of_nat m) as Hc.
{ apply Qlt_shift_div_l; [done|]. by rewrite Qmult_0_l. }
assert (0 < of_nat (S k) / of_nat m) as Hc'.
{ apply Qlt_shift_div_l; [done|]. by rewrite Qmult_0_l. }
assert (of_nat k / of_nat m <= of_nat (S k) / of_nat m) as Hcc.
{ apply Qle_shift_div_l; [done|].
  assert (of_nat k / of_nat m * of_nat m == of_nat k) as E by (field; lra).
  rewrite E. apply of_nat_le. lia. }
set (c := of_nat k / of_nat m) in *. set (c' := of_nat (S k) / of_nat m) in *.
apply Qle_shift_div_r; [done|].
assert (0 <= q / c) as Ht.
{ apply Qle_shift_div_l; [done|]. lra. }
assert (q / c * c == q) as Htc by (field; lra).
nra.
Qed.

Lemma cap_le a a' : a <= a' → cap a <= cap a'.
Proof.
intros H. unfold cap.
destruct (Qle_bool a 1) eqn:Ha; destruct (Qle_bool a' 1) eqn:Ha'; try lra.
- by apply Qle_bool_iff in Ha.
- apply Qle_bool_iff in Ha'. assert (¬ a <= 1) as Hn.
  { intros Hx%Qle_bool_iff. congruence. }
  lra.
Qed.

Lemma cap_ge q a : q <= 1 → q <= a → q <= cap a.
Proof. intros H1 Ha. unfold cap. by destruct (Qle_bool a 1). Qed.

(** The running minimum over the scaled, sorted p-values: every value
    is at least its p-value, and the values are ordered as the p-values
    are (equal p-values get equal values). *)
Definition ordered_as (l : list (Q * Q)) : Prop :=
Forall (λ x, x.1 <= x.2) l ∧
∀ x y, x ∈ l → y ∈ l → x.1 <= y.1 → x.2 <= y.2.

Lemma cummin_right_cons v l :
cummin_right (v :: l) =
  match cummin_right l with
  | [] => [v]
  | w :: r => Qmin v w :: w :: r
  end.
Proof. reflexivity. Qed.

Lemma length_cummin_right l : length (cummin_right l) = length l.
Proof.
induction l as [|v l IH]; [done|]. rewrite cummin_right_cons.
destruct (cummin_right l); simpl in *; by rewrite <- IH.
Qed.

Lemma length_scale m k qs : length (scale m k qs) = length qs.
Proof. revert k. induction qs as [|q qs IH]; intros k; simpl; [done|]. by rewrite IH. Qed.

Lemma step_up_ordered m k qs :
StronglySorted Qle qs → Forall (Qle 0) qs →
(1 ≤ k)%nat → (k + length qs ≤ m + 1)%nat →
let A := cummin_right (scale m k qs) in
ordered_as (zip qs A) ∧
match qs, A with
| q :: _, a :: _ => a <= q / (of_nat k / of_nat m) ∧ Forall (Qle a) A
| [], [] => True
| _, _ => False
end.
Proof.
intros Hs. revert k. induction Hs as [|q qs Hs IH Hq]; intros k H0 Hk Hm; simpl.
{ split; [|done]. split; [constructor|]. intros x y Hx. by apply elem_of_nil in Hx. }
apply Forall_cons in H0 as [Hq0 H0]. simpl in Hm.
specialize (IH (S k) H0 ltac:(lia) ltac:(lia)). simpl in IH.
change (cummin_right (?v :: scale m (S k) qs))
  with (match cummin_right (scale m (S k) qs) with
        | [] => [v] | w :: r => Qmin v w :: w :: r end).
set (v := q / (of_nat k / of_nat m)).
assert (q <= v) as Hqv by (apply scale_ge; [done|done|lia]).
destruct IH as [[IH1 IH2] IH3].
destruct qs as [|q1 qs]; destruct (cummin_right _) as [|a1 A'] eqn:HA; try done.
- simpl. split; [|split; [lra|repeat constructor; lra]].
  split; [by repeat constructor|].
  intros x y ->%list_elem_of_singleton ->%list_elem_of_singleton _. lra.
- destruct IH3 as [Ha1 Hall]. simpl in IH1, IH2.
  apply Forall_cons in Hq as [Hq1 Hq]. apply Forall_cons in H0 as [Hq10 H0].
  assert (q1 <= a1) as Hqa1 by by apply Forall_cons in IH1 as [? _].
  assert (Qmin v a1 <= a1) as Hmin by apply Q.le_min_r.
  assert (Qmin v a1 <= v) as Hminv by apply Q.le_min_l.
  split; [|split; [done|]].
  + split.
    * simpl. constructor; [|done]. simpl. apply Q.min_glb; lra.
    * simpl. intros x y Hx Hy Hxy.
      apply elem_of_cons in Hx as [->|Hx]; apply elem_of_cons in Hy as [->|Hy]; simpl in *.
      -- lra.
      -- assert (a1 <= y.2) as Hy2.
         { apply elem_of_cons in Hy as [->|Hy]; [simpl; lra|].
           apply Forall_cons in Hall as [_ Hall]. rewrite Forall_forall in Hall.
           apply Hall. apply list_elem_of_lookup in Hy as [j Hj].
           apply lookup_zip_with_Some in Hj as (? & ? & -> & _ & Hj).
           simpl. by eapply list_elem_of_lookup_2. }
         lra.
      -- assert (q1 <= x.1) as Hx1.
         { apply elem_of_cons in Hx as [->|Hx]; [simpl; lra|].
           apply StronglySorted_inv in Hs as [_ Hs1].
           rewrite Forall_forall in Hs1. apply Hs1.
           apply list_elem_of_lookup in Hx as [j Hj].
           apply lookup_zip_with_Some in Hj as (? & ? & -> & Hj & _).
           simpl. by eapply list_elem_of_lookup_2. }
         assert (x.2 <= a1) as Hx2.
         { apply (IH2 x (q1, a1)); [done|by left|simpl; lra]. }
         apply Q.min_glb; [|done].
         assert (a1 <= v); [|lra].
         eapply Qle_trans; [exact Ha1|]. apply scale_mono; [lra|lra|done|lia].
      -- by apply IH2.
  + constructor; [lra|].
    eapply Forall_impl; [exact Hall|]. intros a Ha. simpl in Ha. lra.
Qed.

Lemma ordered_as_cap l :
Forall (λ x, x.1 <= 1) l → ordered_as l → ordered_as (prod_map id cap <$> l).
Proof.
intros H1 [Hge Hord]. split.
- apply Forall_fmap. rewrite Forall_forall in H1, Hge. apply Forall_forall.
  intros [q a] Hx. simpl. apply cap_ge; [by apply (H1 _ Hx)|by apply (Hge _ Hx)].
- intros x y (x0 & -> & Hx0)%list_elem_of_fmap (y0 & -> & Hy0)%list_elem_of_fmap.
  destruct x0, y0. simpl. intros Hxy. apply cap_le. by apply (Hord _ _ Hx0 Hy0).
Qed.

(** The sort. *)
Lemma insert_by_p_perm x l : insert_by_p x l ≡ₚ x :: l.
Proof.
induction l as [|y l IH]; simpl; [done|].
destruct (Qle_bool x.1 y.1); [done|]. rewrite IH. apply perm_swap.
Qed.

Lemma sort_by_p_perm l : sort_by_p l ≡ₚ l.
Proof.
unfold sort_by_p. induction l as [|x l IH]; simpl; [done|].
by rewrite insert_by_p_perm, IH.
Qed.

Lemma insert_by_p_sorted x l :
StronglySorted Qle l.*1 → StronglySorted Qle (insert_by_p x l).*1.
Proof.
induction l as [|y l IH]; simpl; intros Hs.
- repeat constructor.
- apply StronglySorted_inv in Hs as [Hs Hy].
  destruct (Qle_bool x.1 y.1) eqn:Hxy; simpl.
  + apply Qle_bool_iff in Hxy. constructor; [by constructor|].
    constructor; [done|]. eapply Forall_impl; [exact Hy|]. intros z Hz. simpl in Hz. lra.
  + assert (y.1 <= x.1) as Hyx.
    { destruct (Qlt_le_dec y.1 x.1) as [?|Hle]; [lra|].
      apply Qle_bool_iff in Hle. congruence. }
    constructor; [by apply IH|].
    apply Forall_forall. intros z Hz.
    apply list_elem_of_fmap in Hz as (w & -> & Hw).
    rewrite insert_by_p_perm in Hw. apply elem_of_cons in Hw as [->|Hw]; [done|].
    rewrite Forall_forall in Hy. apply Hy. by apply list_elem_of_fmap_2.
Qed.

Lemma sort_by_p_sorted l : StronglySorted Qle (sort_by_p l).*1.
Proof.
unfold sort_by_p. induction l as [|x l IH]; simpl; [constructor|].
by apply insert_by_p_sorted.
Qed.

Lemma elem_of_enumerate ps p i : (p, i) ∈ enumerate ps ↔ ps !! i = Some p.
Proof.
unfold enumerate. rewrite list_elem_of_lookup. split.
- intros (j & Hj). apply list_lookup_imap_Some in Hj as (p' & Hp' & [= -> ->]). done.
- intros Hp. exists i. by rewrite list_lookup_imap, Hp.
Qed.

(** Putting the values back. *)
Lemma scatter_lookup l base i v :
scatter l base !! i = Some v →
(i, v) ∈ l ∨ ((i ∉ l.*1) ∧ base !! i = Some v).
Proof.
revert base. induction l as [|[j a] l IH]; intros base; simpl.
- intros Hb. right. split; [|done]. apply not_elem_of_nil.
- intros [Hin|[Hnot Hb]]%IH.
  + left. by right.
  + destruct (decide (i = j)) as [->|Hne].
    * left. destruct (decide (j < length base)%nat) as [Hlt|Hge].
      -- rewrite list_lookup_insert_eq in Hb by done. injection Hb as <-. by left.
      -- rewrite list_insert_ge in Hb by lia.
         apply lookup_lt_Some in Hb. lia.
    * right. rewrite list_lookup_insert_ne in Hb by done.
      split; [|done]. rewrite not_elem_of_cons. done.
Qed.

Lemma fdr_bh_lookup ps i p v :
ps !! i = Some p → fdr_bh ps !! i = Some v →
let qs := (sort_by_p (enumerate ps)).*1 in
(p, v) ∈ prod_map id cap <$> zip qs (cummin_right (scale (length ps) 1 qs)).
Proof.
intros Hp Hv. simpl. unfold fdr_bh in Hv.
set (sorted := sort_by_p (enumerate ps)) in *.
set (A := cummin_right (scale (length ps) 1 sorted.*1)) in *.
assert (length A = length sorted) as HlenA.
{ unfold A. by rewrite length_cummin_right, length_scale, length_fmap. }
assert ((p, i) ∈ sorted) as Hin.
{ unfold sorted. rewrite sort_by_p_perm. by apply elem_of_enumerate. }
apply scatter_lookup in Hv as [Hv|[Hnot _]].
- apply list_elem_of_lookup in Hv as [s Hs].
  apply lookup_zip_with_Some in Hs as (i' & v' & [= <- <-] & Hi & Hc).
  rewrite list_lookup_fmap in Hi. destruct (sorted !! s) as [[p' i']|] eqn:Hs; [|done].
  simpl in Hi. injection Hi as ->.
  assert (p' = p) as ->.
  { assert ((p', i) ∈ enumerate ps) as Hp'.
    { rewrite <- (sort_by_p_perm (enumerate ps)). by eapply list_elem_of_lookup_2. }
    apply elem_of_enumerate in Hp'. congruence. }
  change (map cap A) with (cap <$> A) in Hc. rewrite list_lookup_fmap in Hc.
  destruct (A !! s) as [a|] eqn:Ha; [|done]. injection Hc as <-.
  apply list_elem_of_fmap. exists (p, a). split; [done|].
  apply list_elem_of_lookup. exists s. apply lookup_zip_with_Some.
  exists p, a. split; [done|]. split; [|done]. by rewrite list_lookup_fmap, Hs.
- destruct Hnot. rewrite fst_zip.
  + apply list_elem_of_fmap. by exists (p, i).
  + rewrite length_map, !length_fmap. lia.
Qed.

Lemma fdr_bh_ordered ps :
Forall (λ p, 0 <= p ∧ p <= 1) ps →
∀ i j pi pj ai aj,
  ps !! i = Some pi → ps !! j = Some pj →
  fdr_bh ps !! i = Some ai → fdr_bh ps !! j = Some aj →
  pi <= ai ∧ (pi <= pj → ai <= aj).
Proof.
intros Hps i j pi pj ai aj Hi Hj Hai Haj.
pose proof (fdr_bh_lookup _ _ _ _ Hi Hai) as Hxi.
pose proof (fdr_bh_lookup _ _ _ _ Hj Haj) as Hxj. simpl in *.
set (qs := (sort_by_p (enumerate ps)).*1) in *.
assert (∀ q, q ∈ qs → 0 <= q ∧ q <= 1) as Hqs.
{ intros q (x & -> & Hx)%list_elem_of_fmap. destruct x as [q k]. simpl.
  rewrite sort_by_p_perm in Hx. apply elem_of_enumerate in Hx.
  rewrite Forall_forall in Hps. apply Hps. by eapply list_elem_of_lookup_2. }
assert (length qs = length ps) as Hlen.
{ unfold qs. rewrite length_fmap, sort_by_p_perm. apply length_imap. }
destruct (step_up_ordered (length ps) 1 qs) as [Hord _].
- apply sort_by_p_sorted.
- apply Forall_forall. intros q Hq. by apply Hqs.
- done.
- lia.
- apply ordered_as_cap in Hord as [Hge Hord].
  + split.
    * rewrite Forall_forall in Hge. by apply (Hge _ Hxi).
    * intros Hle. by apply (Hord _ _ Hxi Hxj).
  + apply Forall_forall. intros [q a] Hx. simpl.
    apply list_elem_of_lookup in Hx as [s Hs].
    apply lookup_zip_with_Some in Hs as (? & ? & [= <- <-] & Hq & _).
    apply Hqs. by eapply list_elem_of_lookup_2.
Qed.

(** C5. Within each family of the p-value stage (one outcome and one
    panel), every adjusted p-value is at least its raw p-value, and the
    adjusted p-values are ordered as the raw ones are. *)
Theorem fdr_adjusted_monotone all_res names n_iter k fam i j ri rj :
get_pvalues all_res names n_iter !! k = Some fam →
fam !! i = Some ri → fam !! j = Some rj →
pvalue ri <= pvalue_fdr ri ∧
(pvalue ri <= pvalue rj → pvalue_fdr ri <= pvalue_fdr rj).
Proof.
unfold get_pvalues. intros Hfam Hi Hj.
change (map family_pvalues all_res) with (family_pvalues <$> all_res) in Hfam.
rewrite list_lookup_fmap in Hfam.
destruct (all_res !! k) as [fam0|]; [|discriminate]. injection Hfam as <-.
apply family_pvalues_lookup in Hi as (ci & ai & Hci & Hai & ->).
apply family_pvalues_lookup in Hj as (cj & aj & Hcj & Haj & ->). simpl.
apply (fdr_bh_ordered (map p_of fam0)) with (i := i) (j := j); try done.
- apply Forall_map, Forall_forall. intros c _. simpl.
  pose proof (empirical_p_range (boot_raw c) (boot_norm c)) as [? ?].
  unfold p_of. split; [lra|done].
- change (map p_of fam0) with (p_of <$> fam0). by rewrite list_lookup_fmap, Hci.
- change (map p_of fam0) with (p_of <$> fam0). by rewrite list_lookup_fmap, Hcj.
Qed.

End PvalueFacts.

(** * Further properties of the driver *)

Section SubsetFacts.

Import Notebook Logic.

(** ** The loading cell keeps the file positions as labels *)

(** [Visit == 0] on a record of the file. *)
Definition baseline_record (m : gmap string Q) : bool :=
match m !! "Visit" with
| Some q => Qeq_bool q 0
| None => false
end.

(** The positions in the file, counted from [i], of the records with
    [Visit] equal to 0. *)
Fixpoint baseline_positions (i : nat) (recs : list (gmap string Q)) : list nat :=
match recs with
| [] => []
| m :: recs' =>
    if baseline_record m then i :: baseline_positions (S i) recs'
    else baseline_positions (S i) recs'
end.

Lemma baseline_positions_ge i recs : Forall (λ k, i ≤ k) (baseline_positions i recs).
Proof.
revert i. induction recs as [|m recs IH]; intros i; simpl; [constructor|].
assert (Forall (λ k, i ≤ k) (baseline_positions (S i) recs)) as H.
{ eapply Forall_impl; [apply IH|]. intros k Hk. simpl in Hk. lia. }
destruct (baseline_record m); [constructor; [lia|done]|done].
Qed.

Lemma baseline_positions_sorted i recs :
StronglySorted Z.lt (Z.of_nat <$> baseline_positions i recs).
Proof.
revert i. induction recs as [|m recs IH]; intros i; simpl; [constructor|].
destruct (baseline_record m); [|apply IH].
rewrite fmap_cons. constructor; [apply IH|].
apply Forall_fmap. eapply Forall_impl; [apply baseline_positions_ge|].
intros k Hk. simpl in *. lia.
Qed.

Lemma index_baseline_rows cols i recs :
"Visit" ∈ cols →
map label (List.filter baseline_row (imap (λ k, read_record cols (i + k)) recs))
= Z.of_nat <$> baseline_positions i recs.
Proof.
intros Hv. revert i. induction recs as [|m recs IH]; intros i; [done|].
rewrite imap_cons.
assert (imap ((λ k, read_record cols (i + k)) ∘ S) recs
        = imap (λ k, read_record cols (S i + k)) recs) as ->.
{ apply imap_ext. intros k x _. simpl. f_equal. lia. }
cbn [List.filter baseline_positions].
assert (baseline_row (read_record cols (i + 0) m) = baseline_record m) as ->.
{ unfold baseline_row, baseline_record. by rewrite cell_read_record. }
destruct (baseline_record m); [|apply IH].
cbn [map]. rewrite IH, fmap_cons. f_equal. simpl. f_equal. lia.
Qed.

(** X1. The loading cell does not reset the index: the label of every row
    it keeps is the position the record had in the file, so the index
    lists the positions of the baseline records, in increasing order. *)
Theorem load_keeps_file_positions (f : Csv) (w : World) (df0 : DataFrame) (w' : World) :
load f w = (Ok df0, w') →
index df0 = Z.of_nat <$> baseline_positions 0 (records f) ∧
StronglySorted Z.lt (index df0) ∧
columns df0 = header f ∧
∀ r, r ∈ rows df0 →
  ∃ i m, label r = Z.of_nat i ∧ records f !! i = Some m ∧ baseline_record m = true ∧
         ∀ c, cell r c = if decide (c ∈ header f) then m !! c else None.
Proof.
intros Hl. pose proof (load_rows _ _ _ _ Hl) as Hrows.
apply load_Ok in Hl as (Hv & _ & Hdf).
assert (index df0 = Z.of_nat <$> baseline_positions 0 (records f)) as Hidx.
{ unfold index. rewrite Hrows. simpl. by apply (index_baseline_rows (header f) 0). }
split; [done|]. split; [rewrite Hidx; apply baseline_positions_sorted|].
split; [by rewrite Hdf|].
intros r Hr. rewrite Hrows in Hr.
apply list_elem_of_In, filter_In in Hr as [Hr Hb].
apply list_elem_of_In, list_elem_of_lookup in Hr as [i Hi].
simpl in Hi. apply list_lookup_imap_Some in Hi as (m & Hm & ->).
exists i, m. split; [done|]. split; [done|]. split.
- unfold baseline_row in Hb. by rewrite cell_read_record in Hb.
- intros c. destruct (decide (c ∈ header f)) as [Hc|Hc]; [by apply cell_read_record|].
  unfold cell, read_record. simpl. apply map_lookup_filter_None. right. by intros v _.
Qed.

(** ** The per-outcome frames *)

Definition present (o : string) (r : Row) : bool := bool_decide (is_Some (cell r o)).

Lemma cells_imap_relabel (l : list Row) : map cells (imap relabel l) = map cells l.
Proof.
apply list_eq. intros i.
change (map cells ?k) with (cells <$> k). rewrite !list_lookup_fmap, list_lookup_imap.
by destruct (l !! i).
Qed.

Lemma imap_relabel_idemp (l : list Row) : imap relabel (imap relabel l) = imap relabel l.
Proof.
apply list_eq. intros i. rewrite !list_lookup_imap. by destruct (l !! i).
Qed.

Lemma filter_all_true {A} (p : A → bool) (l : list A) :
Forall (λ x, p x = true) l → List.filter p l = l.
Proof. induction 1 as [|x l Hx _ IH]; simpl; [done|]. by rewrite Hx, IH. Qed.

Lemma Forall_imap_relabel (P : Row → Prop) (l : list Row) :
(∀ i r, P r → P (relabel i r)) → Forall P l → Forall P (imap relabel l).
Proof.
intros HP H. apply Forall_lookup. intros i r Hi.
apply list_lookup_imap_Some in Hi as (r0 & Hr0 & ->).
apply HP. by eapply Forall_lookup_1.
Qed.

Lemma outcome_subset_rows df o d :
outcome_subset df o = Ok d →
o ∈ columns df ∧ columns d = columns df ∧
rows d = imap relabel (List.filter (present o) (rows df)).
Proof.
unfold outcome_subset. destruct (getitem df o) as [s|] eqn:Hs; [|discriminate].
intros [= <-]. apply getitem_Ok in Hs as [Hin ->].
split; [done|]. split; [done|]. unfold reset_index, getitem_mask. simpl.
by rewrite notnull_mask.
Qed.

(** X2. [df[df[outcome].notnull()].reset_index(drop=True)] raises a
    [KeyError] exactly when the outcome is not a column; otherwise it
    keeps the columns, keeps exactly the rows whose outcome is present,
    in their order and with their cells, so no outcome is missing in
    the result; and filtering the result again changes nothing. *)
Theorem outcome_subset_exact (df : DataFrame) (o : string) :
(o ∉ columns df → outcome_subset df o = Raise (KeyError o)) ∧
∀ d, outcome_subset df o = Ok d →
  columns d = columns df ∧
  map cells (rows d) = map cells (List.filter (present o) (rows df)) ∧
  Forall (λ r, is_Some (cell r o)) (rows d) ∧
  len d ≤ len df ∧
  outcome_subset d o = Ok d.
Proof.
split.
{ intros Ho. unfold outcome_subset, getitem. by rewrite decide_False. }
intros d Hd. pose proof (outcome_subset_rows _ _ _ Hd) as (Hin & Hcols & Hrows).
assert (Forall (λ r, present o r = true) (rows d)) as Hall.
{ rewrite Hrows. apply Forall_imap_relabel; [done|].
  apply Forall_forall. intros r Hr. by apply list_elem_of_In, filter_In in Hr as [_ ?]. }
split; [done|]. split; [by rewrite Hrows, cells_imap_relabel|]. split; [|split].
- eapply Forall_impl; [exact Hall|]. intros r Hr. by apply bool_decide_eq_true in Hr.
- unfold len. rewrite Hrows, length_imap. apply filter_length_le.
- unfold outcome_subset. rewrite getitem_elem by by rewrite Hcols. simpl.
  unfold reset_index, getitem_mask. simpl. rewrite notnull_mask.
  fold (present o). rewrite (filter_all_true _ _ Hall).
  destruct d as [cs rs]. simpl in *. by rewrite Hrows, imap_relabel_idemp.
Qed.

(** ** The common subset *)

Lemma model_input_subset df bms norm refprot o d t :
model_input true df bms norm refprot o d = Ok t →
let cols := bms ++ norm ++ [refprot; o] in
(∀ c, c ∈ cols → c ∈ columns df) ∧ columns t = cols ∧
rows t = imap relabel (List.filter (complete cols) (map (restrict cols) (rows df))).
Proof.
unfold model_input. destruct (getitem_cols _ _) as [sel|] eqn:Hsel; [|discriminate].
intros [= <-]. apply getitem_cols_Ok in Hsel as [Hin ->]. done.
Qed.

Lemma complete_Forall cols r :
complete cols r = true ↔ ∀ c, c ∈ cols → is_Some (cell r c).
Proof.
unfold complete. rewrite forallb_forall. split.
- intros H c Hc. apply list_elem_of_In in Hc. apply H in Hc.
  by apply bool_decide_eq_true in Hc.
- intros H c Hc. apply bool_decide_eq_true. apply H. by apply list_elem_of_In.
Qed.

Lemma model_input_rows_complete df bms norm refprot o d t :
model_input true df bms norm refprot o d = Ok t →
Forall (λ r, ∀ c, c ∈ columns t ↔ is_Some (cell r c)) (rows t).
Proof.
intros (_ & Hcols & Hrows)%model_input_subset. cbv zeta in *.
rewrite Hcols, Hrows. set (cols := bms ++ norm ++ [refprot; o]).
apply Forall_imap_relabel; [done|].
apply Forall_forall. intros r Hr.
apply list_elem_of_In, filter_In in Hr as [Hr Hc].
apply in_map_iff in Hr as (r0 & <- & _). intros c. split.
- intros Hin. by apply (proj1 (complete_Forall _ _) Hc).
- intros Hs. rewrite cell_restrict in Hs. destruct (decide (c ∈ cols)); [done|].
  by destruct Hs.
Qed.

Lemma dropna_no_missing t :
Forall (λ r, ∀ c, c ∈ columns t → is_Some (cell r c)) (rows t) → dropna t = t.
Proof.
intros Hall. unfold dropna. rewrite filter_all_true; [by destruct t|].
eapply Forall_impl; [exact Hall|]. intros r Hr. by apply complete_Forall.
Qed.

(** X3. The table of the common-subset mode has exactly the listed
    columns and no missing value: in every row a cell is present
    exactly for the columns of the table.  Dropping incomplete rows
    again, over all or over any selection of its columns, therefore
    removes nothing: every later comparison within the block sees the
    same rows. *)
Theorem common_subset_complete df bms norm refprot o d t :
model_input true df bms norm refprot o d = Ok t →
columns t = bms ++ norm ++ [refprot; o] ∧
Forall (λ r, ∀ c, c ∈ columns t ↔ is_Some (cell r c)) (rows t) ∧
dropna t = t ∧
∀ cols', (∀ c, c ∈ cols' → c ∈ columns t) →
  ∃ sel, getitem_cols t cols' = Ok sel ∧
         len (dropna sel) = len t ∧ index (dropna sel) = index t.
Proof.
intros Ht. pose proof (model_input_rows_complete _ _ _ _ _ _ _ Ht) as Hall.
apply model_input_subset in Ht as (_ & Hcols & _). cbv zeta in Hcols.
split; [done|]. split; [done|]. split.
- apply dropna_no_missing. eapply Forall_impl; [exact Hall|].
  intros r Hr c Hc. by apply Hr.
- intros cols' Hsub. unfold getitem_cols.
  assert (first_missing cols' (columns t) = None) as ->.
  { apply first_missing_None. intros c Hc. by apply Hsub. }
  eexists. split; [done|]. unfold len, index, dropna. simpl.
  assert (Forall (λ r, complete cols' r = true) (map (restrict cols') (rows t))) as Hc'.
  { apply Forall_map. eapply Forall_impl; [exact Hall|]. intros r Hr. simpl in *.
    apply complete_Forall. intros c Hc. rewrite cell_restrict, decide_True by done.
    by apply Hr, Hsub. }
  rewrite (filter_all_true _ _ Hc'), length_map, map_map. done.
Qed.

(** X4. In content the common subset is part of the per-outcome frame:
    its rows are rows of the frame of the maximize-availability mode,
    in the same order, cut down to the selected columns. *)
Theorem common_subset_rows_of_outcome_frame df bms norm refprot o d d' t :
outcome_subset df o = Ok d →
model_input true df bms norm refprot o d' = Ok t →
sublist (map cells (rows t))
        (map (λ r, cells (restrict (bms ++ norm ++ [refprot; o]) r)) (rows d)).
Proof.
intros (_ & _ & Hd)%outcome_subset_rows (_ & _ & Ht)%model_input_subset.
cbv zeta in Ht. set (cols := bms ++ norm ++ [refprot; o]) in *.
rewrite Ht, cells_imap_relabel, Hd.
assert (map (λ r, cells (restrict cols r)) (imap relabel (List.filter (present o) (rows df)))
        = map (λ r, cells (restrict cols r)) (List.filter (present o) (rows df))) as ->.
{ apply list_eq. intros i.
  change (map ?g ?k) with (g <$> k). rewrite !list_lookup_fmap, list_lookup_imap.
  by destruct (_ !! i). }
clear Hd Ht. induction (rows df) as [|r rs IH]; [constructor|].
cbn [map List.filter].
destruct (complete cols (restrict cols r)) eqn:Hc.
- assert (present o r = true) as ->.
  { apply bool_decide_eq_true.
    assert (o ∈ cols) as Ho by (unfold cols; rewrite !elem_of_app, !elem_of_cons; auto).
    pose proof (proj1 (complete_Forall _ _) Hc o Ho) as Hs.
    by rewrite cell_restrict, decide_True in Hs. }
  cbn [map]. apply sublist_skip. exact IH.
- destruct (present o r); [|exact IH].
  cbn [map]. apply sublist_cons. exact IH.
Qed.

End SubsetFacts.

(** ** What a run leaves in its log *)

Section RunFacts.

Import Notebook Logic.

Variable ratio_name : string → string → string.
Variable cfg : Config.

(** The tables a log reports as handed to the model comparison, the
    lengths it reports as printed and the messages printed. *)
Definition compared (l : list event) : list (DataFrame * list string * string) :=
omap (λ ev, match ev with Compare t b o => Some (t, b, o) | _ => None end) l.

Definition printed_lengths (l : list event) : list nat :=
omap (λ ev, match ev with PrintedLen _ n => Some n | _ => None end) l.

Definition messages (l : list event) : list string :=
omap (λ ev, match ev with Printed m => Some m | _ => None end) l.

(** An event that is neither a p-value computation nor a write. *)
Definition quiet (ev : event) : Prop :=
match ev with
| GetPvalues _ | Dump _ _ => False
| _ => True
end.

Lemma quiet_dumps l : Forall quiet l → dumps l = [].
Proof.
induction 1 as [|ev l Hev _ IH]; [done|].
destruct ev; simpl in *; try done.
Qed.

Lemma configure_quiet df0 : spec quiet (λ _, True) (configure ratio_name cfg df0).
Proof.
unfold configure.
destruct (PyList.list_display _) as [csf|]; [|by apply spec_lift].
destruct (PyList.list_display _) as [plasma|]; [|by apply spec_lift].
repeat first
  [ by apply spec_ret
  | eapply spec_bind;
    [by first [apply (spec_emit _ (λ _, True))|apply (spec_lift _ (λ _, True))]|];
    intros ? _ ].
Qed.

Lemma block_quiet t bms norm refprot o d msg :
spec quiet (λ _, True) (block cfg t bms norm refprot o d msg).
Proof.
unfold block.
eapply spec_bind; [by apply (spec_lift _ (λ _, True))|]. intros t' _.
eapply spec_bind; [by apply (spec_emit _ (λ _, True))|]. intros _ _.
eapply spec_bind; [by apply (spec_random _ (λ _, True))|]. intros res _.
eapply spec_bind; [by apply (spec_emit _ (λ _, True))|]. intros _ _.
eapply spec_bind; [by apply (spec_emit _ (λ _, True))|]. intros _ _.
by apply spec_ret.
Qed.

Lemma models_quiet e : spec quiet (λ _, True) (models cfg e).
Proof.
unfold models.
repeat (eapply spec_bind; [by apply block_quiet|]; intros ? _).
by apply spec_ret.
Qed.

Definition no_compare (ev : event) : Prop :=
match ev with
| Compare _ _ _ => False
| _ => True
end.

Lemma no_compare_compared l : Forall no_compare l → compared l = [].
Proof.
induction 1 as [|ev l Hev _ IH]; [done|].
destruct ev; simpl in *; try done.
Qed.

(** X5. A run that stops in the loading, the configuration or the model
    cell has computed no p-value and written no file: partial results
    are never saved.  When it stops in the loading cell nothing has
    happened yet, and the cause is either the error [pd.read_csv]
    raised or, for a file that was read, the missing [Visit] column;
    when it stops in the configuration cell no model comparison was
    started. *)
Theorem failed_run_leaves_no_artifact (read : result Csv) (g : Fns.Rng) c x w :
run_file ratio_name cfg read g = Failed c x w →
c ≠ SaveCell →
Forall quiet (log w) ∧ dumps (log w) = [] ∧
(c = LoadCell →
   log w = [] ∧
   (read = Raise x ∨
    ∃ f, read = Ok f ∧ x = KeyError "Visit" ∧ "Visit" ∉ header f)) ∧
(c = ConfigureCell → compared (log w) = []).
Proof.
intros Hrun Hc. destruct read as [f|x0]; simpl in Hrun.
2:{ injection Hrun as <- <- <-. simpl.
    split; [done|]. split; [done|]. split; [|done]. intros _. split; [done|]. by left. }
unfold run in Hrun.
destruct (load f _) as [[df0|x0] w1] eqn:Hl.
- pose proof (load_Ok _ _ _ _ Hl) as (_ & -> & _).
  destruct (configure ratio_name cfg df0 _) as [[e|x1] w2] eqn:Hcf.
  + destruct (models cfg e w2) as [[res|x2] w3] eqn:Hm.
    * destruct (save cfg e res w3) as [[u|x3] w4]; [discriminate|].
      injection Hrun as <- <- <-. done.
    * injection Hrun as <- <- <-.
      destruct (configure_quiet df0 _ _ _ Hcf) as [(evs1 & Hl1 & Hq1) _].
      destruct (models_quiet e _ _ _ Hm) as [(evs2 & Hl2 & Hq2) _].
      simpl in Hl1. assert (Forall quiet (log w3)) as Hq.
      { rewrite Hl2, Hl1. by apply Forall_app. }
      split; [done|]. split; [by apply quiet_dumps|]. done.
  + injection Hrun as <- <- <-.
    destruct (configure_quiet df0 _ _ _ Hcf) as [(evs1 & Hl1 & Hq1) _].
    destruct (configure_events ratio_name cfg no_compare df0 (λ ev H, H) _ _ _ Hcf)
      as [(evs1' & Hl1' & Hn1) _].
    simpl in Hl1, Hl1'. rewrite Hl1 in *. subst evs1'.
    split; [done|]. split; [by apply quiet_dumps|]. split; [done|].
    intros _. by apply no_compare_compared.
- injection Hrun as <- <- <-.
  unfold load, bind, lift, ret, getitem in Hl. simpl in Hl.
  destruct (decide ("Visit" ∈ header f)) as [Hin|Hout]; [discriminate|].
  injection Hl as <- <-. simpl.
  split; [done|]. split; [done|]. split; [|done]. intros _. split; [done|].
  right. by exists f.
Qed.

(** The tables of the six blocks. *)
Lemma models_compared e w res w' :
models cfg e w = (Ok res, w') →
∃ t1 t2 t3 t4 t5 t6 evs,
  log w' = log w ++ evs ∧
  compared evs =
    [ (t1, csf_biomarkers e, tau_pet_braak_I_IV cfg);
      (t2, csf_biomarkers e, tau_pet_braak_V_VI cfg);
      (t3, csf_biomarkers e, amyloid_pet cfg);
      (t4, plasma_biomarkers e, tau_pet_braak_I_IV cfg);
      (t5, plasma_biomarkers e, tau_pet_braak_V_VI cfg);
      (t6, plasma_biomarkers e, amyloid_pet cfg) ] ∧
  printed_lengths evs = [] ∧
  messages evs =
    [ "Tau pet braak I-IV done for CSF"; "Tau pet braak V-VI done for CSF";
      "Amyloid pet done for CSF"; "Tau pet braak I-IV done for plasma";
      "Tau pet braak V-VI done for plasma"; "Amyloid pet done for plasma" ] ∧
  let csf d o := model_input (subset cfg) (df e) (csf_biomarkers e)
                   (csf_biomarkers_normalized e) (csf_refprot cfg) o d in
  let plasma d o := model_input (subset cfg) (df e) (plasma_biomarkers e)
                      (plasma_biomarkers_normalized e) (plasma_refprot cfg) o d in
  csf (df_tau_pet_braak_I_IV e) (tau_pet_braak_I_IV cfg) = Ok t1 ∧
  csf (df_tau_pet_braak_V_VI e) (tau_pet_braak_V_VI cfg) = Ok t2 ∧
  csf (df_amyloid_pet e) (amyloid_pet cfg) = Ok t3 ∧
  plasma (df_tau_pet_braak_I_IV e) (tau_pet_braak_I_IV cfg) = Ok t4 ∧
  plasma (df_tau_pet_braak_V_VI e) (tau_pet_braak_V_VI cfg) = Ok t5 ∧
  plasma (df_amyloid_pet e) (amyloid_pet cfg) = Ok t6.
Proof.
unfold models.
intros (c1 & w1 & (t1 & g1 & H1 & _ & ->)%block_Ok & H)%bind_Ok.
apply bind_Ok in H as (c2 & w2 & (t2 & g2 & H2 & _ & ->)%block_Ok & H).
apply bind_Ok in H as (c3 & w3 & (t3 & g3 & H3 & _ & ->)%block_Ok & H).
apply bind_Ok in H as (p1 & w4 & (t4 & g4 & H4 & _ & ->)%block_Ok & H).
apply bind_Ok in H as (p2 & w5 & (t5 & g5 & H5 & _ & ->)%block_Ok & H).
apply bind_Ok in H as (p3 & w6 & (t6 & g6 & H6 & _ & ->)%block_Ok & H).
injection H as <- <-. simpl.
eexists t1, t2, t3, t4, t5, t6, _. split; [by rewrite <- !app_assoc|]. done.
Qed.

Lemma common_table_bound df bms norm refprot o d d' t :
outcome_subset df o = Ok d →
model_input true df bms norm refprot o d' = Ok t →
columns t = bms ++ norm ++ [refprot; o] ∧ len t ≤ len d ∧ dropna t = t.
Proof.
intros Hd Ht. pose proof (model_input_rows_complete _ _ _ _ _ _ _ Ht) as Hall.
pose proof (model_input_subset _ _ _ _ _ _ _ Ht) as (_ & Hcols & Hrows).
cbv zeta in *. split; [done|]. split.
- rewrite (len_outcome_subset _ _ _ Hd). unfold len. rewrite Hrows, length_imap.
  apply common_rows_le. rewrite !elem_of_app, !elem_of_cons. auto.
- apply dropna_no_missing. eapply Forall_impl; [exact Hall|].
  intros r Hr c Hc. by apply Hr.
Qed.

Lemma compared_app l1 l2 : compared (l1 ++ l2) = compared l1 ++ compared l2.
Proof. apply omap_app. Qed.

Lemma printed_lengths_app l1 l2 :
printed_lengths (l1 ++ l2) = printed_lengths l1 ++ printed_lengths l2.
Proof. apply omap_app. Qed.

Lemma messages_app l1 l2 : messages (l1 ++ l2) = messages l1 ++ messages l2.
Proof. apply omap_app. Qed.

(** The log of a completed run, cell by cell. *)
Lemma completed_log f g w :
run ratio_name cfg f g = Completed w →
∃ df0 e w1 w2 res evs,
  load f (mkWorld g []) = (Ok df0, w1) ∧
  configure ratio_name cfg df0 w1 = (Ok e, w2) ∧ log w1 = [] ∧
  models cfg e w2 = (Ok res, mkWorld (rng (models cfg e w2).2) (log w2 ++ evs)) ∧
  compared (log w) = compared evs ∧
  printed_lengths (log w) =
    [ len (df_tau_pet_braak_I_IV e); len (df_tau_pet_braak_V_VI e); len (df_amyloid_pet e) ] ∧
  messages (log w) = messages evs.
Proof.
intros (df0 & e & res & w1 & w2 & w3 & u & Hl & Hc & Hm & Hs)%run_Completed.
pose proof (load_Ok _ _ _ _ Hl) as (_ & -> & _).
pose proof (configure_Ok _ _ _ _ _ _ Hc)
  as (csf & plasma & r1 & r2 & _ & _ & _ & _ & _ & _ & _ & _ & _ & _ & _ & _ & Hlog2 & _).
pose proof (models_compared _ _ _ _ Hm)
  as (t1 & t2 & t3 & t4 & t5 & t6 & evs & Hlog3 & _ & Hpl & _).
apply save_Ok in Hs. simpl in Hlog2.
exists df0, e, (mkWorld g []), w2, res, evs.
split; [done|]. split; [done|]. split; [done|]. split.
{ rewrite Hm. simpl. destruct w3. simpl in *. by rewrite Hlog3. }
rewrite Hs, Hlog3, Hlog2.
rewrite !compared_app, !printed_lengths_app, !messages_app, Hpl. simpl.
by rewrite !app_nil_r.
Qed.


(** What the common-subset mode guarantees for a table, given the
    names of its columns and the printed length of the outcome's
    frame. *)
Definition common_table (t : DataFrame) (cols : list string) (n : nat) : Prop :=
columns t = cols ∧ len t ≤ n ∧ dropna t = t.

(** X7. In the common-subset mode ([subset = True]) a completed run hands
    to each of the six comparisons the table selected from the table
    with all ratios: its columns are exactly the panel's biomarkers,
    the ratio names [create_biomarker_ratios] returned for the panel,
    the panel's reference protein and the outcome; it has no missing
    value; and it has at most as many rows as the per-outcome frame
    whose length the configuration cell printed. *)
Theorem common_subset_tables (f : Csv) (g : Fns.Rng) (w : World) :
subset cfg = true →
run ratio_name cfg f g = Completed w →
∃ df0 w0 csf plasma r1 r2 d1 d2 d3 t1 t2 t3 t4 t5 t6,
  load f (mkWorld g []) = (Ok df0, w0) ∧
  PyList.list_display (csf_biomarkers_src cfg) = Some csf ∧
  PyList.list_display (plasma_biomarkers_src cfg) = Some plasma ∧
  Fns.create_biomarker_ratios ratio_name df0 csf (csf_refprot cfg) = Ok r1 ∧
  Fns.create_biomarker_ratios ratio_name r1.1 plasma (plasma_refprot cfg) = Ok r2 ∧
  outcome_subset r2.1 (tau_pet_braak_I_IV cfg) = Ok d1 ∧
  outcome_subset r2.1 (tau_pet_braak_V_VI cfg) = Ok d2 ∧
  outcome_subset r2.1 (amyloid_pet cfg) = Ok d3 ∧
  printed_lengths (log w) = [len d1; len d2; len d3] ∧
  compared (log w) =
    [ (t1, csf, tau_pet_braak_I_IV cfg); (t2, csf, tau_pet_braak_V_VI cfg);
      (t3, csf, amyloid_pet cfg);
      (t4, plasma, tau_pet_braak_I_IV cfg); (t5, plasma, tau_pet_braak_V_VI cfg);
      (t6, plasma, amyloid_pet cfg) ] ∧
  (let csf_input o d := model_input true r2.1 csf r1.2 (csf_refprot cfg) o d in
   let plasma_input o d := model_input true r2.1 plasma r2.2 (plasma_refprot cfg) o d in
   csf_input (tau_pet_braak_I_IV cfg) d1 = Ok t1 ∧
   csf_input (tau_pet_braak_V_VI cfg) d2 = Ok t2 ∧
   csf_input (amyloid_pet cfg) d3 = Ok t3 ∧
   plasma_input (tau_pet_braak_I_IV cfg) d1 = Ok t4 ∧
   plasma_input (tau_pet_braak_V_VI cfg) d2 = Ok t5 ∧
   plasma_input (amyloid_pet cfg) d3 = Ok t6) ∧
  common_table t1 (csf ++ r1.2 ++ [csf_refprot cfg; tau_pet_braak_I_IV cfg]) (len d1) ∧
  common_table t2 (csf ++ r1.2 ++ [csf_refprot cfg; tau_pet_braak_V_VI cfg]) (len d2) ∧
  common_table t3 (csf ++ r1.2 ++ [csf_refprot cfg; amyloid_pet cfg]) (len d3) ∧
  common_table t4 (plasma ++ r2.2 ++ [plasma_refprot cfg; tau_pet_braak_I_IV cfg]) (len d1) ∧
  common_table t5 (plasma ++ r2.2 ++ [plasma_refprot cfg; tau_pet_braak_V_VI cfg]) (len d2) ∧
  common_table t6 (plasma ++ r2.2 ++ [plasma_refprot cfg; amyloid_pet cfg]) (len d3).
Proof.
intros Hsub
  (df0 & e & w1 & w2 & res & evs & Hl & Hc & _ & Hm & Hcmp & Hpl & Hmsg)%completed_log.
pose proof (configure_Ok _ _ _ _ _ _ Hc)
  as (csf & plasma & r1 & r2 & Hcsf & Hpla & Hr1 & Hr2 & H1 & H2 & H3
      & Ecsf & Epl & Edf & Ecn & Epn & _).
pose proof (models_compared _ _ _ _ Hm)
  as (t1 & t2 & t3 & t4 & t5 & t6 & evs' & Hlog & Hcmp' & _ & _ & Hin).
simpl in Hlog. apply app_inv_head in Hlog. subst evs'.
cbv zeta in Hin. rewrite Hsub, Ecsf, Epl, Ecn, Epn, Edf in Hin.
destruct Hin as (I1 & I2 & I3 & I4 & I5 & I6).
exists df0, w1, csf, plasma, r1, r2,
  (df_tau_pet_braak_I_IV e), (df_tau_pet_braak_V_VI e), (df_amyloid_pet e),
  t1, t2, t3, t4, t5, t6.
do 8 (split; [done|]). split; [done|].
split; [by rewrite Hcmp, Hcmp', Ecsf, Epl|].
split; [done|].
unfold common_table.
repeat split;
  first [ by eapply (common_table_bound _ _ _ _ _ _ _ _ H1)
        | by eapply (common_table_bound _ _ _ _ _ _ _ _ H2)
        | by eapply (common_table_bound _ _ _ _ _ _ _ _ H3) ].
Qed.

End RunFacts.

(** ** The list displays of the configuration cell *)

Section ListDisplayFacts.

Import PyList.


(** A list of names written as a list display: each name between
    single quotes, a comma and the white space [sep] between two
    names, and a trailing comma if wanted. *)
Definition quoted (n : string) : string := (String "'" n ++ "'")%string.

Fixpoint render_items (sep : string) (trailing : bool) (names : list string) : string :=
match names with
| [] => EmptyString
| n :: rest =>
    match rest with
    | [] => (quoted n ++ (if trailing then "," else EmptyString))%string
    | _ :: _ => (quoted n ++ String "," (sep ++ render_items sep trailing rest))%string
    end
end.

Definition render (sep : string) (trailing : bool) (names : list string) : string :=
String "[" (render_items sep trailing names ++ "]")%string.

Fixpoint all_space (s : string) : bool :=
match s with
| EmptyString => true
| String a s' => is_space a && all_space s'
end.

Fixpoint item_tokens (trailing : bool) (names : list string) : list token :=
match names with
| [] => []
| n :: rest =>
    match rest with
    | [] => STR n :: (if trailing then [COMMA] else [])
    | _ :: _ => STR n :: COMMA :: item_tokens trailing rest
    end
end.

Lemma append_String b (s t : string) : (String b s ++ t = String b (s ++ t))%string.
Proof. reflexivity. Qed.

Lemma append_Empty (t : string) : (EmptyString ++ t = t)%string.
Proof. reflexivity. Qed.

Lemma append_snoc (acc : string) a (s : string) :
((acc ++ String a EmptyString) ++ s = acc ++ String a s)%string.
Proof.
induction acc as [|b acc IH]; [done|]. rewrite !append_String. by rewrite IH.
Qed.

Lemma append_assoc_string (a b c : string) : ((a ++ b) ++ c = a ++ (b ++ c))%string.
Proof.
induction a as [|x a IH]; [done|]. rewrite !append_String. by rewrite IH.
Qed.

Lemma append_Empty_r (acc : string) : (acc ++ EmptyString = acc)%string.
Proof.
induction acc as [|b acc IH]; [done|]. rewrite append_String. by rewrite IH.
Qed.

(** A plain character neither ends a string literal nor breaks its
    line. *)
Lemma plain_char_inside a :
plain_char a = true → Ascii.eqb a "'" = false ∧ is_line_break a = false.
Proof.
unfold plain_char, is_quote, is_line_break.
intros [[[Hlo _]%andb_prop Hq]%andb_prop _]%andb_prop.
split; [by apply negb_true_iff|].
destruct (Ascii.eqb a "010") eqn:E1; [apply Ascii.eqb_eq in E1 as ->; done|].
destruct (Ascii.eqb a "013") eqn:E2; [apply Ascii.eqb_eq in E2 as ->; done|].
done.
Qed.

Lemma lex_string_body acc n rest :
plain_name n = true →
lex (Some acc) (n ++ String "'" rest)%string = cons (STR (acc ++ n)%string) <$> lex None rest.
Proof.
revert acc. induction n as [|a n IH]; intros acc Hn.
- rewrite append_Empty, append_Empty_r. done.
- rewrite append_String. cbn [lex]. simpl in Hn. apply andb_prop in Hn as [Ha Hn].
  apply plain_char_inside in Ha as [-> ->].
  rewrite IH by done. by rewrite append_snoc.
Qed.

Lemma lex_quoted n rest :
plain_name n = true →
lex None (quoted n ++ rest)%string = cons (STR n) <$> lex None rest.
Proof.
intros Hn. unfold quoted.
rewrite !append_String, append_assoc_string, append_String, append_Empty.
change (lex None (String "'" ?s)) with (lex (Some EmptyString) s).
by rewrite lex_string_body.
Qed.

Lemma lex_space sep rest :
all_space sep = true → lex None (sep ++ rest)%string = lex None rest.
Proof.
induction sep as [|a sep IH]; [done|]. rewrite append_String.
simpl. intros [Ha Hs]%andb_prop. rewrite <- (IH Hs).
unfold is_space in Ha.
destruct (Ascii.eqb a " ") eqn:E1; [apply Ascii.eqb_eq in E1 as ->; done|].
destruct (Ascii.eqb a "010") eqn:E2; [apply Ascii.eqb_eq in E2 as ->; done|].
destruct (Ascii.eqb a "009") eqn:E3; [apply Ascii.eqb_eq in E3 as ->; done|].
destruct (Ascii.eqb a "013") eqn:E4; [apply Ascii.eqb_eq in E4 as ->; done|].
done.
Qed.

Lemma lex_items sep trailing names rest :
all_space sep = true → Forall (λ n, plain_name n = true) names →
lex None (render_items sep trailing names ++ rest)%string
= app (item_tokens trailing names) <$> lex None rest.
Proof.
intros Hsep. induction 1 as [|n names Hn Hall IH].
- cbn [render_items item_tokens]. rewrite append_Empty. by destruct (lex None rest).
- cbn [render_items item_tokens]. destruct names as [|n' names].
  + rewrite append_assoc_string, lex_quoted by done.
    destruct trailing.
    * rewrite append_String, append_Empty.
      change (lex None (String "," ?s)) with (cons COMMA <$> lex None s).
      by destruct (lex None rest).
    * rewrite append_Empty. by destruct (lex None rest).
  + rewrite append_assoc_string, lex_quoted by done.
    rewrite append_String, append_assoc_string.
    change (lex None (String "," ?s)) with (cons COMMA <$> lex None s).
    rewrite lex_space by done. rewrite IH.
    by destruct (lex None rest).
Qed.

Lemma parse_items trailing names :
names ≠ [] ∨ trailing = false →
parse WantItem (item_tokens trailing names ++ [RBRACK]) = Some names.
Proof.
induction names as [|n names IH]; intros Hne.
- destruct Hne as [?| ->]; done.
- cbn [item_tokens]. destruct names as [|n' names].
  + by destruct trailing.
  + cbn [app parse]. rewrite IH; [done|]. by left.
Qed.

(** X8. A biomarker list written the way the notebook writes it — the
    names between single quotes, a comma and white space or a line
    break between two names, with or without a trailing comma — is
    read as exactly those names, in order, whenever the names are
    plain: printable ASCII characters other than the quote and the
    backslash, which a single-quoted literal holds as they are. *)
Theorem list_display_render sep trailing names :
all_space sep = true →
Forall (λ n, plain_name n = true) names →
names ≠ [] ∨ trailing = false →
list_display (render sep trailing names) = Some names.
Proof.
intros Hsep Hnames Hne. unfold list_display, render.
change (lex None (String "[" ?s)) with (cons LBRACK <$> lex None s).
rewrite lex_items by done.
change (lex None "]") with (Some [RBRACK]). cbn [fmap option_fmap option_map mbind option_bind].
change (parse WantItem (item_tokens trailing names ++ [RBRACK]) = Some names).
by apply parse_items.
Qed.

End ListDisplayFacts.

Section MalformedLists.

Import Notebook PyList.

Variable ratio_name : string → string → string.
Variable cfg : Config.


End MalformedLists.

(** ** Outcome columns the table does not have *)

Section MissingOutcome.

Import Notebook Logic.

Variable ratio_name : string → string → string.
Variable cfg : Config.

(** X10. The three per-outcome frames are built in the order temporal
    tau, cortical tau, amyloid, after both panels' ratios.  When some
    outcome is not a column of the table at that point, the run stops
    in the configuration cell with a [KeyError] for the first such
    outcome, before any length is printed; when all three are columns,
    the run does not stop in the configuration cell. *)
Theorem missing_outcome_stops_configuration
  (f : Csv) (g : Fns.Rng) df0 w0 csf plasma r1 r2 :
load f (mkWorld g []) = (Ok df0, w0) →
PyList.list_display (csf_biomarkers_src cfg) = Some csf →
PyList.list_display (plasma_biomarkers_src cfg) = Some plasma →
Fns.create_biomarker_ratios ratio_name df0 csf (csf_refprot cfg) = Ok r1 →
Fns.create_biomarker_ratios ratio_name r1.1 plasma (plasma_refprot cfg) = Ok r2 →
match first_missing [tau_pet_braak_I_IV cfg; tau_pet_braak_V_VI cfg; amyloid_pet cfg]
                    (columns r2.1) with
| Some o =>
    run ratio_name cfg f g
    = Failed ConfigureCell (KeyError o)
        (mkWorld g [ CreateRatios csf (csf_refprot cfg);
                     CreateRatios plasma (plasma_refprot cfg) ])
| None => ∀ x w, run ratio_name cfg f g ≠ Failed ConfigureCell x w
end.
Proof.
intros Hl Hc Hp H1 H2.
assert (w0 = mkWorld g []) as ->.
{ revert Hl. unfold load, bind, lift, ret.
  destruct (getitem (read_csv f) "Visit"); by intros [= _ <-]. }
unfold run. rewrite Hl. unfold configure. rewrite Hc, Hp.
unfold bind, emit, lift, ret. cbn [rng log app]. rewrite H1, H2.
unfold outcome_subset, getitem. cbn [first_missing].
destruct (decide (tau_pet_braak_I_IV cfg ∈ columns r2.1)); [|done].
destruct (decide (tau_pet_braak_V_VI cfg ∈ columns r2.1)); [|done].
destruct (decide (amyloid_pet cfg ∈ columns r2.1)); [|done].
cbn. intros x w.
by destruct (models _ _ _) as [[?|?] ?].
Qed.

End MissingOutcome.

(** * A worked example

    A small file, a configuration with one biomarker per panel and one
    bootstrap iteration, and the statements above at these inputs. *)

Module Demo.

Import Notebook Fns.

Definition ratio_column (b r : string) : string := (b ++ "_" ++ r)%string.

Definition record (l : list (string * Q)) : gmap string Q := list_to_map l.

Definition csv : Csv :=
mkCsv ["Visit"; "A"; "B"; "R"; "S"; "T1"; "T2"; "AM"]
  [ record [("Visit", 0); ("A", 1); ("B", 2); ("R", 2); ("S", 4); ("T1", 1); ("T2", 3); ("AM", 2)];
    record [("Visit", 1); ("A", 1); ("B", 2); ("R", 2); ("S", 4); ("T1", 1); ("T2", 3); ("AM", 2)];
    record [("Visit", 0); ("A", 2); ("B", 3); ("R", 0); ("S", 5); ("T1", 3); ("T2", 3); ("AM", 5)];
    record [("Visit", 0); ("A", 4); ("B", 1); ("R", 3); ("S", 2); ("T1", 2); ("T2", 1)];
    record [("Visit", 0); ("A", 3); ("B", 5); ("R", 1); ("S", 1); ("T1", 5); ("T2", 2); ("AM", 4)] ]%Q.

(** The same file without its [Visit] column. *)
Definition csv_without_visit : Csv :=
mkCsv ["A"; "B"; "R"; "S"; "T1"; "T2"; "AM"] (records csv).

Definition config (sub : bool) : Config :=
mkConfig "T1" "T2" "AM" "['A']" "['B',]" "R" "S" 1 sub.

Definition generator : Rng := mkRng (λ i, 2 * i + 1) 0.

Definition start : World := mkWorld generator [].

(** A frame with a biomarker, its ratio and an outcome. *)
Definition frame : DataFrame :=
read_csv (mkCsv ["A"; "A_R"; "T1"]
  [ record [("A", 1); ("A_R", 1 # 2); ("T1", 1)];
    record [("A", 2); ("A_R", 3); ("T1", 3)];
    record [("A", 4); ("A_R", 4 # 3); ("T1", 2)];
    record [("A", 3); ("T1", 5)] ]%Q).

(** Two records of one family, with a degenerate iteration in the
    first. *)
Definition fit (idx : list nat) (r : option Q) : Fit :=
mkFit idx (mkModel 0 1 <$> r).

Definition family : list Comparison :=
[ mkComparison "A" "A_R" 3 (fit [0; 1; 2] (Some (1 # 2)%Q)) (fit [0; 1; 2] (Some (3 # 5)%Q))
    [ (fit [0; 0; 1] (Some (1 # 2)%Q), fit [0; 0; 1] (Some (3 # 4)%Q));
      (fit [1; 1; 1] None, fit [1; 1; 1] None);
      (fit [2; 0; 1] (Some (2 # 5)%Q), fit [2; 0; 1] (Some (1 # 5)%Q)) ];
  mkComparison "B" "B_R" 3 (fit [0; 1; 2] (Some (1 # 3)%Q)) (fit [0; 1; 2] (Some (1 # 5)%Q))
    [ (fit [0; 0; 1] (Some (1 # 2)%Q), fit [0; 0; 1] (Some (1 # 4)%Q));
      (fit [1; 2; 1] (Some (1 # 3)%Q), fit [1; 2; 1] (Some (1 # 6)%Q));
      (fit [2; 0; 1] (Some (2 # 5)%Q), fit [2; 0; 1] (Some (1 # 5)%Q)) ]  ].

End Demo.

Import Notebook Fns Demo PyList.

Lemma paired_resamples_witness :
∃ res g',
  compare_biomarkers frame ["A"] ["A_R"] "R" "T1" 2 generator = (Ok res, g') ∧
  map biomarker res = (zip ["A"] ["A_R"]).*1 ∧
  Forall (λ c,
    length (boot c) = 2 ∧
    rows_used (fit_raw c) = rows_used (fit_norm c) ∧
    ∃ sub,
      pair_subset frame (biomarker c) (normalized c) "T1" = Ok sub ∧ n_obs c = len sub ∧
      ∀ k it, boot c !! k = Some it →
        paired_on sub (biomarker c) (normalized c) "T1" it ∧
        rows_used it.1 = rows_used it.2) res.
Proof.
destruct (compare_biomarkers frame ["A"] ["A_R"] "R" "T1" 2 generator) as [[res|e] g'] eqn:E.
- exists res, g'. split; [reflexivity|].
  exact (paired_resamples frame ["A"] ["A_R"] "R" "T1" 2 generator res g' E).
- vm_compute in E. discriminate.
Defined.


Lemma shipped_fails_at_configuration_witness :
"Visit" ∈ header csv ∧
(∀ df0 w, configure ratio_column shipped df0 w = (Raise SyntaxError, w)) ∧
run ratio_column shipped csv generator = Failed ConfigureCell SyntaxError (mkWorld generator []) ∧
(∀ f' g' w, run ratio_column shipped f' g' ≠ Completed w).
Proof.
assert ("Visit" ∈ header csv) as H by (apply (bool_decide_unpack _); vm_compute; exact I).
split; [assumption|].
exact (shipped_fails_at_configuration ratio_column csv generator H).
Defined.

(** A file without a [Visit] column: the shipped notebook fails at the
    loading cell with a [KeyError], before the configuration cell and
    its syntax error are reached. *)
Lemma shipped_fails_earlier_without_visit :
run ratio_column shipped csv_without_visit generator
  = Failed LoadCell (KeyError "Visit") (mkWorld generator []) ∧
(∀ w, run ratio_column shipped csv_without_visit generator
        ≠ Failed ConfigureCell SyntaxError w).
Proof.
assert (run ratio_column shipped csv_without_visit generator
        = Failed LoadCell (KeyError "Visit") (mkWorld generator [])) as E
  by (vm_compute; reflexivity).
split; [exact E|]. intros w. rewrite E. discriminate.
Qed.

Lemma empirical_pvalue_formula_witness :
∃ r, r ∈ family_pvalues family ∧
  let c := comparison r in
  let fp := finite_pairs (boot_raw c) (boot_norm c) in
  pvalue r = (of_nat (1 + count_le fp) / of_nat (length fp + 1))%Q ∧
  n_eff r = length fp ∧
  n_eff r ≤ length (boot c) ∧
  (Forall (λ it, is_Some (r2 it.1) ∧ is_Some (r2 it.2)) (boot c) →
     n_eff r = length (boot c) ∧
     ∀ df bms norm refprot o g res g',
       compare_biomarkers df bms norm refprot o 3 g = (Ok res, g') → c ∈ res →
       pvalue r = (of_nat (1 + count_le fp) / of_nat (3 + 1))%Q) ∧
  (0 < pvalue r)%Q ∧ (pvalue r <= 1)%Q.
Proof.
destruct (family_pvalues family) as [|r rest] eqn:E; [vm_compute in E; discriminate|].
exists r. split; [left|].
apply (empirical_pvalue_formula [family] [] 3 (r :: rest) 0 r).
- simpl. by rewrite E.
- left.
Defined.

Lemma fdr_adjusted_monotone_witness :
∃ ri rj,
  family_pvalues family !! 0 = Some ri ∧ family_pvalues family !! 1 = Some rj ∧
  (pvalue ri <= pvalue_fdr ri)%Q ∧
  ((pvalue ri <= pvalue rj)%Q → (pvalue_fdr ri <= pvalue_fdr rj)%Q).
Proof.
destruct (family_pvalues family) as [|ri [|rj rest]] eqn:E;
  [vm_compute in E; discriminate|vm_compute in E; discriminate|].
exists ri, rj. split; [reflexivity|]. split; [reflexivity|].
apply (fdr_adjusted_monotone [family] [] 3 0 (ri :: rj :: rest) 0 1 ri rj).
- simpl. by rewrite E.
- reflexivity.
- reflexivity.
Defined.

Lemma one_artifact_six_result_sets_witness :
∃ w, run ratio_column (config true) csv generator = Completed w ∧
∃ csf plasma c1 c2 c3 p1 p2 p3,
  PyList.list_display (csf_biomarkers_src (config true)) = Some csf ∧
  PyList.list_display (plasma_biomarkers_src (config true)) = Some plasma ∧
  comparisons (log w) =
    [ (csf, "T1", c1); (csf, "T2", c2); (csf, "AM", c3);
      (plasma, "T1", p1); (plasma, "T2", p2); (plasma, "AM", p3) ] ∧
  dumps (log w) =
    [ ("linreg_results.pkl", map family_pvalues [c1; c2; c3; p1; p2; p3]) ] ∧
  last (log w) =
    Some (Dump "linreg_results.pkl" (map family_pvalues [c1; c2; c3; p1; p2; p3])) ∧
  ∃ df0 w1 e w2 g1 g2 g3 g4 g5 g6 evs,
    load csv (mkWorld generator []) = (Ok df0, w1) ∧
    configure ratio_column (config true) df0 w1 = (Ok e, w2) ∧
    csf_biomarkers e = csf ∧ plasma_biomarkers e = plasma ∧
    (let csf_block :=
       block_result (config true) e csf (csf_biomarkers_normalized e) "R" in
     let plasma_block :=
       block_result (config true) e plasma (plasma_biomarkers_normalized e) "S" in
     csf_block "T1" (df_tau_pet_braak_I_IV e) generator c1 g1 ∧
     csf_block "T2" (df_tau_pet_braak_V_VI e) g1 c2 g2 ∧
     csf_block "AM" (df_amyloid_pet e) g2 c3 g3 ∧
     plasma_block "T1" (df_tau_pet_braak_I_IV e) g3 p1 g4 ∧
     plasma_block "T2" (df_tau_pet_braak_V_VI e) g4 p2 g5 ∧
     plasma_block "AM" (df_amyloid_pet e) g5 p3 g6) ∧
    log w = evs ++
      [ GetPvalues (csf_biomarkers_normalized e);
        GetPvalues (plasma_biomarkers_normalized e);
        Dump "linreg_results.pkl"
          (get_pvalues [c1; c2; c3] (csf_biomarkers_normalized e) 1
           ++ get_pvalues [p1; p2; p3] (plasma_biomarkers_normalized e) 1) ] ∧
    comparisons evs = comparisons (log w) ∧
    dumps evs = [] ∧
    rng w = g6.
Proof.
destruct (run ratio_column (config true) csv generator) as [w|c e w] eqn:E.
- exists w. split; [reflexivity|].
  exact (one_artifact_six_result_sets ratio_column (config true) csv generator w E).
- vm_compute in E. discriminate.
Defined.

(** Whether the common subset of the first CSF block can be built from
    what the configuration cell leaves behind. *)
Definition common_subset_built (c : result Env * World) : bool :=
match c with
| (Ok e, _) =>
    is_ok (model_input true (df e) ["A"] ["A_R"] "R" "T1" (df_tau_pet_braak_I_IV e))
| (Raise _, _) => false
end.

Lemma common_subset_le_max_availability_witness :
∃ e w' t_common t_max,
  configure ratio_column (config true) (read_csv csv) start = (Ok e, w') ∧
  ("T1", df_tau_pet_braak_I_IV e) ∈ outcomes (config true) e ∧
  model_input true (df e) ["A"] ["A_R"] "R" "T1" (df_tau_pet_braak_I_IV e) = Ok t_common ∧
  model_input false (df e) ["A"] ["A_R"] "R" "T1" (df_tau_pet_braak_I_IV e) = Ok t_max ∧
  len t_common ≤ len t_max.
Proof.
assert (common_subset_built (configure ratio_column (config true) (read_csv csv) start) = true)
  as Hb by (vm_compute; reflexivity).
destruct (configure ratio_column (config true) (read_csv csv) start) as [[e|x] w'] eqn:E;
  [|cbv in Hb; discriminate].
unfold common_subset_built in Hb.
destruct (model_input true (df e) ["A"] ["A_R"] "R" "T1" (df_tau_pet_braak_I_IV e))
  as [t_common|x] eqn:Ec; [|cbv in Hb; discriminate].
exists e, w', t_common, (copy (df_tau_pet_braak_I_IV e)).
assert (("T1", df_tau_pet_braak_I_IV e) ∈ outcomes (config true) e) as Ho by left.
split; [reflexivity|]. split; [exact Ho|]. split; [exact Ec|]. split; [reflexivity|].
exact (common_subset_le_max_availability ratio_column (config true) (read_csv csv) start
         e w' "T1" (df_tau_pet_braak_I_IV e) ["A"] ["A_R"] "R" t_common _ E Ho Ec eq_refl).
Defined.

Lemma compare_tables_reindexed_witness :
∃ t bms o,
  Compare t bms o ∈ log (world_of (run ratio_column (config false) csv generator)) ∧
  index t = RangeIndex (len t).
Proof.
destruct (first_compare (log (world_of (run ratio_column (config false) csv generator))))
  as [[[t bms] o]|] eqn:E; [|vm_compute in E; discriminate].
apply first_compare_elem in E. exists t, bms, o. split; [exact E|].
exact (compare_tables_reindexed ratio_column (config false) csv generator t bms o E).
Defined.

Lemma degenerate_resample_recorded_witness :
degenerate (take_rows [1; 1; 2]%Q [0; 1; 1]) ∧
let bs := (bootstrap 1 [1; 1; 2]%Q [3; 3; 5]%Q [2; 4; 4]%Q (mkRng (λ i, Nat.min i 1) 0)).1 in
length bs = 1 ∧ (r2 <$> (fst <$> bs)) = [None].
Proof.
assert (degenerate (take_rows [1; 1; 2]%Q [0; 1; 1])) as Hd.
{ apply (constant_degenerate 1%Q). by repeat constructor. }
split; [exact Hd|].
pose proof (degenerate_resample_recorded 1 [1; 1; 2]%Q [3; 3; 5]%Q [2; 4; 4]%Q
              (mkRng (λ i, Nat.min i 1) 0)) as (Hlen & Hit & _).
split; [exact Hlen|].
destruct (bootstrap 1 _ _ _ _).1 as [|it [|? ?]] eqn:E; try discriminate.
simpl. f_equal. apply (Hit 0 it eq_refl). left.
assert (rows_used it.1 = [0; 1; 1]) as ->; [|exact Hd].
vm_compute in E. by injection E as <-.
Defined.

(** Whether the first table a log hands to the model comparison still
    has the [Visit] column. *)
Definition first_table_has_visit (l : list event) : bool :=
match first_compare l with
| Some (t, _, _) => bool_decide ("Visit" ∈ columns t)
| None => false
end.

Lemma baseline_visits_only_witness :
(∃ df0 w', load csv start = (Ok df0, w') ∧ len df0 = 4) ∧
(∃ t bms o,
   Compare t bms o ∈ log (world_of (run ratio_column (config true) csv generator)) ∧
   ∃ csf plasma,
     PyList.list_display (csf_biomarkers_src (config true)) = Some csf ∧
     PyList.list_display (plasma_biomarkers_src (config true)) = Some plasma ∧
     Forall (from_baseline ratio_column (config true) csv csf plasma (columns t)) (rows t) ∧
     ("Visit" ∈ columns t → "Visit" ∉ ratio_names ratio_column (config true) csf plasma →
      Forall (λ r, baseline_row r = true) (rows t))) ∧
(∃ t bms o,
   Compare t bms o ∈ log (world_of (run ratio_column (config false) csv generator)) ∧
   "Visit" ∈ columns t ∧
   ("Visit" ∉ ratio_names ratio_column (config false) ["A"] ["B"]) ∧
   Forall (from_baseline ratio_column (config false) csv ["A"] ["B"] (columns t)) (rows t) ∧
   Forall (λ r, baseline_row r = true) (rows t)).
Proof.
split; [|split].
- pose proof (baseline_visits_only ratio_column (config true) csv generator) as (Hload & _).
  destruct (load csv start) as [[df0|x] w'] eqn:E; [|vm_compute in E; discriminate].
  exists df0, w'. split; [reflexivity|].
  destruct (Hload _ _ _ E) as [Hrows _]. unfold len. rewrite Hrows. vm_compute. reflexivity.
- pose proof (baseline_visits_only ratio_column (config true) csv generator) as (_ & _ & Hcmp).
  destruct (first_compare (log (world_of (run ratio_column (config true) csv generator))))
    as [[[t bms] o]|] eqn:E; [|vm_compute in E; discriminate].
  apply first_compare_elem in E. exists t, bms, o. split; [exact E|].
  exact (Hcmp t bms o E).
- pose proof (baseline_visits_only ratio_column (config false) csv generator) as (_ & _ & Hcmp).
  assert (first_table_has_visit
            (log (world_of (run ratio_column (config false) csv generator))) = true) as Hv
    by (vm_compute; reflexivity).
  unfold first_table_has_visit in Hv.
  destruct (first_compare (log (world_of (run ratio_column (config false) csv generator))))
    as [[[t bms] o]|] eqn:E; [|discriminate Hv].
  apply bool_decide_eq_true in Hv.
  apply first_compare_elem in E. exists t, bms, o. split; [exact E|]. split; [exact Hv|].
  assert ("Visit" ∉ ratio_names ratio_column (config false) ["A"] ["B"]) as Hn
    by (apply (bool_decide_unpack _); vm_compute; exact I).
  split; [exact Hn|].
  destruct (Hcmp t bms o E) as (csf & plasma & Hcsf & Hpl & Hrows & Hvisit).
  assert (PyList.list_display (csf_biomarkers_src (config false)) = Some ["A"]) as Ecsf
    by (vm_compute; reflexivity).
  assert (PyList.list_display (plasma_biomarkers_src (config false)) = Some ["B"]) as Epl
    by (vm_compute; reflexivity).
  rewrite Ecsf in Hcsf. rewrite Epl in Hpl.
  injection Hcsf as <-. injection Hpl as <-.
  split; [exact Hrows|]. exact (Hvisit Hv Hn).
Defined.

(** ** The further properties at the example *)

(** A frame with a biomarker, its ratio, the reference protein and an
    outcome, some values missing. *)
Definition panel_frame : DataFrame :=
read_csv (mkCsv ["A"; "A_R"; "R"; "T1"]
  [ record [("A", 1); ("A_R", 1 # 2); ("R", 2); ("T1", 1)];
    record [("A", 2); ("R", 0); ("T1", 3)];
    record [("A", 4); ("A_R", 4 # 3); ("R", 3)];
    record [("A", 3); ("A_R", 3); ("R", 1); ("T1", 5)] ]%Q).

(** The example configuration with an amyloid outcome the file does
    not have. *)
Definition config_without_outcome : Config :=
mkConfig "T1" "T2" "ZZ" "['A']" "['B',]" "R" "S" 1 false.

(** Whether a run got through all four cells. *)
Definition completes (o : outcome) : bool :=
match o with Completed _ => true | Failed _ _ _ => false end.

(** The table the loading cell leaves for the example file, and the
    tables after the ratios of each panel are added. *)
Definition loaded : DataFrame :=
match load csv start with (Ok d, _) => d | (Raise _, _) => mkDF [] [] end.

Definition with_csf_ratios : DataFrame * list string :=
match create_biomarker_ratios ratio_column loaded ["A"] "R" with
| Ok r => r
| Raise _ => (mkDF [] [], [])
end.

Definition with_all_ratios : DataFrame * list string :=
match create_biomarker_ratios ratio_column with_csf_ratios.1 ["B"] "S" with
| Ok r => r
| Raise _ => (mkDF [] [], [])
end.

Lemma load_keeps_file_positions_witness :
∃ df0 w',
  load csv start = (Ok df0, w') ∧
  index df0 = Z.of_nat <$> [0; 2; 3; 4] ∧
  index df0 = Z.of_nat <$> baseline_positions 0 (records csv) ∧
  StronglySorted Z.lt (index df0) ∧
  columns df0 = header csv ∧
  ∀ r, r ∈ rows df0 →
    ∃ i m, label r = Z.of_nat i ∧ records csv !! i = Some m ∧ baseline_record m = true ∧
           ∀ c, cell r c = if decide (c ∈ header csv) then m !! c else None.
Proof.
destruct (load csv start) as [[df0|x] w'] eqn:E; [|vm_compute in E; discriminate].
exists df0, w'. split; [reflexivity|].
pose proof (load_keeps_file_positions csv start df0 w' E) as H.
split; [|exact H]. destruct H as [-> _]. vm_compute. reflexivity.
Defined.

Lemma outcome_subset_exact_witness :
outcome_subset (read_csv csv) "ZZ" = Raise (KeyError "ZZ") ∧
∃ d, outcome_subset (read_csv csv) "AM" = Ok d ∧
  len d = 4 ∧
  columns d = columns (read_csv csv) ∧
  map cells (rows d) = map cells (List.filter (present "AM") (rows (read_csv csv))) ∧
  Forall (λ r, is_Some (cell r "AM")) (rows d) ∧
  len d ≤ len (read_csv csv) ∧
  outcome_subset d "AM" = Ok d.
Proof.
pose proof (outcome_subset_exact (read_csv csv) "ZZ") as [Hz _].
split.
{ apply Hz. apply (bool_decide_unpack _). vm_compute. exact I. }
pose proof (outcome_subset_exact (read_csv csv) "AM") as [_ Ha].
destruct (outcome_subset (read_csv csv) "AM") as [d|x] eqn:E;
  [|vm_compute in E; discriminate].
exists d. split; [reflexivity|]. split; [|exact (Ha d eq_refl)].
vm_compute in E. injection E as <-. reflexivity.
Defined.

Lemma common_subset_complete_witness :
∃ t,
  model_input true panel_frame ["A"] ["A_R"] "R" "T1" panel_frame = Ok t ∧
  len t = 2 ∧
  columns t = ["A"] ++ ["A_R"] ++ ["R"; "T1"] ∧
  Forall (λ r, ∀ c, c ∈ columns t ↔ is_Some (cell r c)) (rows t) ∧
  dropna t = t ∧
  ∀ cols', (∀ c, c ∈ cols' → c ∈ columns t) →
    ∃ sel, getitem_cols t cols' = Ok sel ∧
           len (dropna sel) = len t ∧ index (dropna sel) = index t.
Proof.
destruct (model_input true panel_frame ["A"] ["A_R"] "R" "T1" panel_frame) as [t|x] eqn:E;
  [|vm_compute in E; discriminate].
exists t. split; [reflexivity|]. split.
- vm_compute in E. injection E as <-. reflexivity.
- exact (common_subset_complete panel_frame ["A"] ["A_R"] "R" "T1" panel_frame t E).
Defined.

Lemma common_subset_rows_of_outcome_frame_witness :
∃ d t,
  outcome_subset panel_frame "T1" = Ok d ∧
  model_input true panel_frame ["A"] ["A_R"] "R" "T1" d = Ok t ∧
  len d = 3 ∧ len t = 2 ∧
  sublist (map cells (rows t))
          (map (λ r, cells (restrict (["A"] ++ ["A_R"] ++ ["R"; "T1"]) r)) (rows d)).
Proof.
destruct (outcome_subset panel_frame "T1") as [d|x] eqn:Ed;
  [|vm_compute in Ed; discriminate].
destruct (model_input true panel_frame ["A"] ["A_R"] "R" "T1" d) as [t|x] eqn:Et;
  [|vm_compute in Et; discriminate].
exists d, t. split; [reflexivity|]. split; [exact Et|].
pose proof (common_subset_rows_of_outcome_frame
              panel_frame ["A"] ["A_R"] "R" "T1" d d t Ed Et) as H.
split; [|split; [|exact H]].
- vm_compute in Ed. injection Ed as <-. reflexivity.
- unfold model_input in Et. vm_compute in Et. injection Et as <-. reflexivity.
Defined.

Lemma failed_run_leaves_no_artifact_witness :
(∃ w,
   run_file ratio_column config_without_outcome (Ok csv) generator
     = Failed ConfigureCell (KeyError "ZZ") w ∧
   ConfigureCell ≠ SaveCell ∧
   Forall quiet (log w) ∧ dumps (log w) = [] ∧
   (ConfigureCell = LoadCell →
      log w = [] ∧
      (Ok csv = Raise (KeyError "ZZ") ∨
       ∃ f, Ok csv = Ok f ∧ KeyError "ZZ" = KeyError "Visit" ∧ "Visit" ∉ header f)) ∧
   (ConfigureCell = ConfigureCell → compared (log w) = [])) ∧
(run_file ratio_column (config false) (Raise ReadError) generator
   = Failed LoadCell ReadError start ∧
 LoadCell ≠ SaveCell ∧
 Forall quiet (log start) ∧ dumps (log start) = [] ∧
 (LoadCell = LoadCell →
    log start = [] ∧
    (@Raise Csv ReadError = Raise ReadError ∨
     ∃ f, Raise ReadError = Ok f ∧ ReadError = KeyError "Visit" ∧ "Visit" ∉ header f)) ∧
 (LoadCell = ConfigureCell → compared (log start) = [])).
Proof.
split.
- assert (∃ w, run_file ratio_column config_without_outcome (Ok csv) generator
               = Failed ConfigureCell (KeyError "ZZ") w) as [w E].
  { vm_compute. eexists. reflexivity. }
  assert (ConfigureCell ≠ SaveCell) as Hc by discriminate.
  exists w. split; [exact E|]. split; [exact Hc|].
  exact (failed_run_leaves_no_artifact ratio_column config_without_outcome (Ok csv) generator
           ConfigureCell (KeyError "ZZ") w E Hc).
- assert (LoadCell ≠ SaveCell) as Hc by discriminate.
  split; [reflexivity|]. split; [exact Hc|].
  exact (failed_run_leaves_no_artifact ratio_column (config false) (Raise ReadError) generator
           LoadCell ReadError start eq_refl Hc).
Defined.


Lemma common_subset_tables_witness :
∃ w,
  subset (config true) = true ∧
  run ratio_column (config true) csv generator = Completed w ∧
  ∃ df0 w0 csf plasma r1 r2 d1 d2 d3 t1 t2 t3 t4 t5 t6,
    load csv (mkWorld generator []) = (Ok df0, w0) ∧
    PyList.list_display (csf_biomarkers_src (config true)) = Some csf ∧
    PyList.list_display (plasma_biomarkers_src (config true)) = Some plasma ∧
    create_biomarker_ratios ratio_column df0 csf "R" = Ok r1 ∧
    create_biomarker_ratios ratio_column r1.1 plasma "S" = Ok r2 ∧
    outcome_subset r2.1 "T1" = Ok d1 ∧
    outcome_subset r2.1 "T2" = Ok d2 ∧
    outcome_subset r2.1 "AM" = Ok d3 ∧
    printed_lengths (log w) = [len d1; len d2; len d3] ∧
    compared (log w) =
      [ (t1, csf, "T1"); (t2, csf, "T2"); (t3, csf, "AM");
        (t4, plasma, "T1"); (t5, plasma, "T2"); (t6, plasma, "AM") ] ∧
    (let csf_input o d := model_input true r2.1 csf r1.2 "R" o d in
     let plasma_input o d := model_input true r2.1 plasma r2.2 "S" o d in
     csf_input "T1" d1 = Ok t1 ∧
     csf_input "T2" d2 = Ok t2 ∧
     csf_input "AM" d3 = Ok t3 ∧
     plasma_input "T1" d1 = Ok t4 ∧
     plasma_input "T2" d2 = Ok t5 ∧
     plasma_input "AM" d3 = Ok t6) ∧
    common_table t1 (csf ++ r1.2 ++ ["R"; "T1"]) (len d1) ∧
    common_table t2 (csf ++ r1.2 ++ ["R"; "T2"]) (len d2) ∧
    common_table t3 (csf ++ r1.2 ++ ["R"; "AM"]) (len d3) ∧
    common_table t4 (plasma ++ r2.2 ++ ["S"; "T1"]) (len d1) ∧
    common_table t5 (plasma ++ r2.2 ++ ["S"; "T2"]) (len d2) ∧
    common_table t6 (plasma ++ r2.2 ++ ["S"; "AM"]) (len d3).
Proof.
assert (completes (run ratio_column (config true) csv generator) = true) as Hc
  by (vm_compute; reflexivity).
destruct (run ratio_column (config true) csv generator) as [w|c e w] eqn:E;
  [|discriminate Hc].
exists w. split; [reflexivity|]. split; [reflexivity|].
exact (common_subset_tables ratio_column (config true) csv generator w eq_refl E).
Defined.

(** The plasma list of the shipped notebook is written in this
    layout: one name per line, the following lines indented by 21
    spaces, no trailing comma. *)
Definition shipped_plasma_names : list string :=
[ "Plasma_ptau217_Lilly"; "Plasma_ptau181_Lilly"; "Plasma_ptau205_WashU";
  "Plasma_eMTBRtau243_WashU"; "Plasma_Ab42_WashU" ].

Definition shipped_indent : string :=
String "010" "                     ".

Lemma list_display_render_witness :
plasma_biomarkers_src shipped = render shipped_indent false shipped_plasma_names ∧
all_space shipped_indent = true ∧
Forall (λ n, plain_name n = true) shipped_plasma_names ∧
(shipped_plasma_names ≠ [] ∨ false = false) ∧
list_display (plasma_biomarkers_src shipped) = Some shipped_plasma_names.
Proof.
assert (plasma_biomarkers_src shipped = render shipped_indent false shipped_plasma_names)
  as H0 by (vm_compute; reflexivity).
assert (all_space shipped_indent = true) as H1 by (vm_compute; reflexivity).
assert (Forall (λ n, plain_name n = true) shipped_plasma_names) as H2
  by (repeat constructor).
assert (shipped_plasma_names ≠ [] ∨ false = false) as H3 by (right; reflexivity).
split; [exact H0|]. split; [exact H1|]. split; [exact H2|]. split; [exact H3|].
rewrite H0. exact (list_display_render _ _ _ H1 H2 H3).
Defined.


Lemma missing_outcome_stops_configuration_witness :
load csv start = (Ok loaded, start) ∧
list_display (csf_biomarkers_src config_without_outcome) = Some ["A"] ∧
list_display (plasma_biomarkers_src config_without_outcome) = Some ["B"] ∧
create_biomarker_ratios ratio_column loaded ["A"] (csf_refprot config_without_outcome)
  = Ok with_csf_ratios ∧
create_biomarker_ratios ratio_column with_csf_ratios.1 ["B"]
  (plasma_refprot config_without_outcome) = Ok with_all_ratios ∧
first_missing [ tau_pet_braak_I_IV config_without_outcome;
                tau_pet_braak_V_VI config_without_outcome;
                amyloid_pet config_without_outcome ] (columns with_all_ratios.1)
  = Some "ZZ" ∧
run ratio_column config_without_outcome csv generator
= Failed ConfigureCell (KeyError "ZZ")
    (mkWorld generator [ CreateRatios ["A"] (csf_refprot config_without_outcome);
                         CreateRatios ["B"] (plasma_refprot config_without_outcome) ]).
Proof.
assert (load csv start = (Ok loaded, start)) as El by (vm_compute; reflexivity).
assert (list_display (csf_biomarkers_src config_without_outcome) = Some ["A"]) as Hc
  by (vm_compute; reflexivity).
assert (list_display (plasma_biomarkers_src config_without_outcome) = Some ["B"]) as Hp
  by (vm_compute; reflexivity).
assert (create_biomarker_ratios ratio_column loaded ["A"] (csf_refprot config_without_outcome)
        = Ok with_csf_ratios) as E1 by (vm_compute; reflexivity).
assert (create_biomarker_ratios ratio_column with_csf_ratios.1 ["B"]
          (plasma_refprot config_without_outcome) = Ok with_all_ratios) as E2
  by (vm_compute; reflexivity).
assert (first_missing [ tau_pet_braak_I_IV config_without_outcome;
                        tau_pet_braak_V_VI config_without_outcome;
                        amyloid_pet config_without_outcome ] (columns with_all_ratios.1)
        = Some "ZZ") as Hm by (vm_compute; reflexivity).
pose proof (missing_outcome_stops_configuration ratio_column config_without_outcome
              csv generator loaded start ["A"] ["B"] with_csf_ratios with_all_ratios
              El Hc Hp E1 E2) as H.
rewrite Hm in H.
repeat (split; [assumption|]). exact H.
Defined.
